(** * Surveillance pipeline: streaming lifecycle, broadcast hub and threat analysis

    A shallow embedding of [components/object-detection/app.py].

    Conventions of the embedding.
    - A Python [str] is a [string]; its characters are 8-bit, a non-ASCII
      character is the sequence of its UTF-8 bytes, and [lower] acts on the
      ASCII letters only.
    - A Python value built from JSON (or returned as a report) is a [pyval];
      a [dict] keeps its keys in insertion order.
    - A float produced by the detector or sent by a client is the rational it
      denotes ([Q]); a float read by [json_loads] is kept as its literal.
    - An exception is a value of [Exn]; code that may raise returns [Exn + A].
    - Calls to the outside world (environment variable, HTTP request, camera,
      socket send, thread join) take their outcome from an explicit argument
      and are recorded in a trace of events. *)

From Stdlib Require Import String Ascii List ZArith QArith Qround Bool Lia Arith.
From Stdlib Require Import DecimalString.
Import ListNotations.

Local Open Scope string_scope.
Local Open Scope Z_scope.
Set Warnings "-register-all".

(* ===================================================================== *)
(** ** Python strings *)
(* ===================================================================== *)

Module PyStr.

(** The double-quote character. *)
Definition dquote : ascii := "034"%char.

(** [py s] turns each apostrophe of [s] into a double quote: the literals
    of this file are written with apostrophes where the Python text has
    double quotes. *)
Fixpoint py (s : string) : string :=
  match s with
  | EmptyString => EmptyString
  | String c r => String (if Ascii.eqb c "'"%char then dquote else c) (py r)
  end.

Definition is_upper (c : ascii) : bool :=
  let n := nat_of_ascii c in (Nat.leb 65 n && Nat.leb n 90)%bool.

Definition lower_char (c : ascii) : ascii :=
  if is_upper c then ascii_of_nat (nat_of_ascii c + 32) else c.

(** [s.lower()] *)
Fixpoint lower (s : string) : string :=
  match s with
  | EmptyString => EmptyString
  | String c r => String (lower_char c) (lower r)
  end.

(** [s.startswith(p)] *)
Fixpoint startswith (p s : string) : bool :=
  match p, s with
  | EmptyString, _ => true
  | String a p', String b s' => (Ascii.eqb a b && startswith p' s')%bool
  | String _ _, EmptyString => false
  end.

(** [sub in s] *)
Fixpoint contains (sub s : string) : bool :=
  (startswith sub s ||
   match s with
   | EmptyString => false
   | String _ r => contains sub r
   end)%bool.

(** [sep.join(l)] *)
Fixpoint join (sep : string) (l : list string) : string :=
  match l with
  | [] => ""
  | [x] => x
  | x :: r => x ++ sep ++ join sep r
  end.

(** [str(n)] for an [int]. *)
Definition str_of_nat (n : nat) : string := NilEmpty.string_of_uint (Nat.to_uint n).
Definition str_of_Z (z : Z) : string := NilZero.string_of_int (Z.to_int z).

Definition two_digits (n : Z) : string :=
  (if n <? 10 then "0" else "") ++ str_of_Z n.

(** Round half to even of a non-negative rational [a / d]. *)
Definition round_half_even (a : Z) (d : positive) : Z :=
  let q := a / Zpos d in
  let r := a mod Zpos d in
  match 2 * r ?= Zpos d with
  | Gt => q + 1
  | Eq => if Z.even q then q else q + 1
  | Lt => q
  end.

(** [format(x, '.2f')] *)
Definition format_2f (x : Q) : string :=
  let n := round_half_even (100 * Z.abs (Qnum x)) (Qden x) in
  (if Qnum x <? 0 then "-" else "") ++ str_of_Z (n / 100) ++ "." ++ two_digits (n mod 100).

End PyStr.

Import PyStr.

(* ===================================================================== *)
(** ** Python values and the JSON reader *)
(* ===================================================================== *)

(** The values [json.loads] builds, which are also the values the handlers
    return. A [dict] is the list of its items in insertion order, with no
    key twice. *)
Inductive pyval : Type :=
| PNone
| PBool (b : bool)
| PInt (z : Z)
| PFloat (literal : string)
| PStr (s : string)
| PList (l : list pyval)
| PDict (items : list (string * pyval)).

(** Python exceptions that the modelled code can meet. *)
Inductive Exn : Type :=
| ValueError (msg : string)
| KeyError (key : string)
| IndexError
| TypeError
| JSONDecodeError
| RequestException.

Module PyDict.

(** [d[k] = v] on the item list of a dict. *)
Fixpoint set (k : string) (v : pyval) (d : list (string * pyval)) : list (string * pyval) :=
  match d with
  | [] => [(k, v)]
  | (k', v') :: r => if String.eqb k k' then (k, v) :: r else (k', v') :: set k v r
  end.

(** [d.get(k)] *)
Fixpoint get (k : string) (d : list (string * pyval)) : option pyval :=
  match d with
  | [] => None
  | (k', v) :: r => if String.eqb k k' then Some v else get k r
  end.

End PyDict.

(** [v[k]] with a string subscript: a lookup on a dict, [KeyError] when the
    key is absent, [TypeError] on every other JSON value. *)
Definition getitem_str (v : pyval) (k : string) : Exn + pyval :=
  match v with
  | PDict d => match PyDict.get k d with Some x => inr x | None => inl (KeyError k) end
  | _ => inl TypeError
  end.

(** [v[0]]: the first element of a list, the first character of a string,
    a lookup of the key [0] in a dict (whose keys, read from JSON, are all
    strings), [TypeError] elsewhere. *)
Definition getitem_0 (v : pyval) : Exn + pyval :=
  match v with
  | PList (x :: _) => inr x
  | PList [] => inl IndexError
  | PStr (String c _) => inr (PStr (String c EmptyString))
  | PStr EmptyString => inl IndexError
  | PDict _ => inl (KeyError "0")
  | _ => inl TypeError
  end.

(** [v.get(k)] on a value: the field [k] of a dict, [None] elsewhere. *)
Definition field (k : string) (v : pyval) : option pyval :=
  match v with
  | PDict d => PyDict.get k d
  | _ => None
  end.

(** The reader of the [json] module of the standard library, as
    [json.loads] and [response.json()] use it: strict strings, the
    constants [NaN], [Infinity] and [-Infinity] accepted. Two limits of the
    interpreter are left out: its recursion limit and its limit on the
    number of digits of an [int]. *)
Module Json.

(** White space between the tokens. *)
Definition is_ws (c : ascii) : bool :=
  (Ascii.eqb c " " || Ascii.eqb c "009" || Ascii.eqb c "010" || Ascii.eqb c "013")%bool.

Fixpoint skip_ws (s : string) : string :=
  match s with
  | String c r => if is_ws c then skip_ws r else s
  | EmptyString => s
  end.

Definition is_digit (c : ascii) : bool :=
  let n := nat_of_ascii c in (Nat.leb 48 n && Nat.leb n 57)%bool.

Definition hex_val (c : ascii) : option Z :=
  let n := Z.of_nat (nat_of_ascii c) in
  if (48 <=? n) && (n <=? 57) then Some (n - 48)
  else if (97 <=? n) && (n <=? 102) then Some (n - 87)
  else if (65 <=? n) && (n <=? 70) then Some (n - 55)
  else None.

(** The four hexadecimal digits of a [\uXXXX] escape. *)
Definition hex4 (a b c d : ascii) : option Z :=
  match hex_val a, hex_val b, hex_val c, hex_val d with
  | Some x, Some y, Some z, Some w => Some (((x * 16 + y) * 16 + z) * 16 + w)
  | _, _, _, _ => None
  end.

Definition byte (z : Z) : ascii := ascii_of_nat (Z.to_nat z).

(** [chr(cp)], as UTF-8 bytes. *)
Definition chr (cp : Z) : string :=
  if cp <? 128 then String (byte cp) ""
  else if cp <? 2048 then
    String (byte (192 + cp / 64)) (String (byte (128 + cp mod 64)) "")
  else if cp <? 65536 then
    String (byte (224 + cp / 4096))
      (String (byte (128 + (cp / 64) mod 64)) (String (byte (128 + cp mod 64)) ""))
  else
    String (byte (240 + cp / 262144))
      (String (byte (128 + (cp / 4096) mod 64))
        (String (byte (128 + (cp / 64) mod 64)) (String (byte (128 + cp mod 64)) ""))).

(** The character a one-letter escape stands for. *)
Definition unescape (c : ascii) : option ascii :=
  if Ascii.eqb c dquote then Some dquote
  else if Ascii.eqb c "\" then Some "\"%char
  else if Ascii.eqb c "/" then Some "/"%char
  else if Ascii.eqb c "b" then Some "008"%char
  else if Ascii.eqb c "f" then Some "012"%char
  else if Ascii.eqb c "n" then Some "010"%char
  else if Ascii.eqb c "r" then Some "013"%char
  else if Ascii.eqb c "t" then Some "009"%char
  else None.

(** A low surrogate escape at the head of [s], and what follows it. *)
Definition low_surrogate (s : string) : option (Z * string) :=
  match s with
  | String b (String u (String h1 (String h2 (String h3 (String h4 r))))) =>
      if (Ascii.eqb b "\" && Ascii.eqb u "u")%bool then
        match hex4 h1 h2 h3 h4 with
        | Some lo => if (56320 <=? lo) && (lo <=? 57343) then Some (lo, r) else None
        | None => None
        end
      else None
  | _ => None
  end.

(** [scanstring]: the body of a string, from just after its opening quote
    to its closing quote; strict mode (a control character is an error). *)
Fixpoint scanstring (s : string) : option (string * string) :=
  match s with
  | EmptyString => None
  | String c r =>
      if Ascii.eqb c dquote then Some ("", r)
      else if Ascii.eqb c "\" then
        match r with
        | String e r1 =>
            if Ascii.eqb e "u" then
              match r1 with
              | String h1 (String h2 (String h3 (String h4 r2))) =>
                  match hex4 h1 h2 h3 h4 with
                  | Some hi =>
                      match (if (55296 <=? hi) && (hi <=? 56319) then low_surrogate r2 else None) with
                      | Some (lo, _) =>
                          match r2 with
                          | String _ (String _ (String _ (String _ (String _ (String _ r3))))) =>
                              match scanstring r3 with
                              | Some (t, rest) =>
                                  Some (chr (65536 + ((hi - 55296) * 1024 + (lo - 56320))) ++ t, rest)
                              | None => None
                              end
                          | _ => None
                          end
                      | None =>
                          match scanstring r2 with
                          | Some (t, rest) => Some (chr hi ++ t, rest)
                          | None => None
                          end
                      end
                  | None => None
                  end
              | _ => None
              end
            else
              match unescape e with
              | Some ch =>
                  match scanstring r1 with
                  | Some (t, rest) => Some (String ch t, rest)
                  | None => None
                  end
              | None => None
              end
        | EmptyString => None
        end
      else if Nat.ltb (nat_of_ascii c) 32 then None
      else
        match scanstring r with
        | Some (t, rest) => Some (String c t, rest)
        | None => None
        end
  end.

(** The longest run of digits at the head of [s], and what follows it. *)
Fixpoint digits (s : string) : string * string :=
  match s with
  | String c r =>
      if is_digit c then let (d, rest) := digits r in (String c d, rest) else ("", s)
  | EmptyString => ("", "")
  end.

(** The integer part of a number: [0] or a run of digits not starting
    with [0]. *)
Definition int_part (s : string) : option (string * string) :=
  match s with
  | String c r =>
      if Ascii.eqb c "0" then Some ("0", r)
      else if is_digit c then Some (digits s)
      else None
  | EmptyString => None
  end.

(** The optional fraction: a dot and at least one digit. *)
Definition frac_part (s : string) : string * string :=
  match s with
  | String c r =>
      if Ascii.eqb c "." then
        match digits r with
        | (EmptyString, _) => ("", s)
        | (d, rest) => (String c d, rest)
        end
      else ("", s)
  | EmptyString => ("", s)
  end.

(** The optional exponent: [e] or [E], an optional sign, at least one digit. *)
Definition exp_part (s : string) : string * string :=
  match s with
  | String c r =>
      if (Ascii.eqb c "e" || Ascii.eqb c "E")%bool then
        let (sign, r1) :=
          match r with
          | String g r' =>
              if (Ascii.eqb g "+" || Ascii.eqb g "-")%bool then (String g "", r') else ("", r)
          | EmptyString => ("", r)
          end in
        match digits r1 with
        | (EmptyString, _) => ("", s)
        | (d, rest) => (String c (sign ++ d), rest)
        end
      else ("", s)
  | EmptyString => ("", s)
  end.

Definition Z_of_digits (d : string) : Z :=
  match NilZero.int_of_string d with
  | Some i => Z.of_int i
  | None => 0
  end.

(** A number at the head of [s]: an [int] when it has neither fraction
    nor exponent, a [float] otherwise. *)
Definition scan_number (s : string) : option (pyval * string) :=
  let (sign, r0) :=
    match s with
    | String c r => if Ascii.eqb c "-" then ("-", r) else ("", s)
    | EmptyString => ("", s)
    end in
  match int_part r0 with
  | Some (i, r1) =>
      let (f, r2) := frac_part r1 in
      let (e, r3) := exp_part r2 in
      match f, e with
      | EmptyString, EmptyString => Some (PInt (Z_of_digits (sign ++ i)), r3)
      | _, _ => Some (PFloat (sign ++ i ++ f ++ e), r3)
      end
  | None => None
  end.

(** [s] without the prefix [p], when it starts with it. *)
Fixpoint strip (p s : string) : option string :=
  match p, s with
  | EmptyString, _ => Some s
  | String a p', String b s' => if Ascii.eqb a b then strip p' s' else None
  | String _ _, EmptyString => None
  end.

(** The constants tried after a number did not match. *)
Definition scan_constant (s : string) : option (pyval * string) :=
  match strip "NaN" s with
  | Some r => Some (PFloat "NaN", r)
  | None =>
      match strip "Infinity" s with
      | Some r => Some (PFloat "Infinity", r)
      | None =>
          match strip "-Infinity" s with
          | Some r => Some (PFloat "-Infinity", r)
          | None => None
          end
      end
  end.

(** The result of a scanner: the value read and the rest of the text. *)
Definition scanned : Type := option (pyval * string).

(** What follows the first character of [s], when that character is [c]. *)
Definition after (c : ascii) (s : string) : option string :=
  match s with
  | String a r => if Ascii.eqb a c then Some r else None
  | EmptyString => None
  end.

(** [_scan_once]: the value at the head of [s]. The readers of the items
    of an object and of an array are arguments. *)
Definition scan_value (object_items : string -> list (string * pyval) -> scanned)
           (array_items : string -> list pyval -> scanned) (s : string) : scanned :=
  match after dquote s, after "{" s, after "[" s with
  | Some r, _, _ =>
      match scanstring r with
      | Some (t, rest) => Some (PStr t, rest)
      | None => None
      end
  | None, Some r, _ =>
      match after "}" (skip_ws r) with
      | Some rest => Some (PDict [], rest)
      | None => object_items (skip_ws r) []
      end
  | None, None, Some r =>
      match after "]" (skip_ws r) with
      | Some rest => Some (PList [], rest)
      | None => array_items (skip_ws r) []
      end
  | None, None, None =>
      match strip "null" s, strip "true" s, strip "false" s with
      | Some rest, _, _ => Some (PNone, rest)
      | None, Some rest, _ => Some (PBool true, rest)
      | None, None, Some rest => Some (PBool false, rest)
      | None, None, None =>
          match scan_number s with
          | Some res => Some res
          | None => scan_constant s
          end
      end
  end.

(** One turn of the loop of [JSONObject]: a key, a colon, a value, then
    the closing brace or a comma and the next turn. [s] starts at the key;
    [acc] holds the items read so far. *)
Definition object_item (scan_once : string -> scanned)
           (object_items : string -> list (string * pyval) -> scanned)
           (s : string) (acc : list (string * pyval)) : scanned :=
  match after dquote s with
  | Some r =>
      match scanstring r with
      | Some (key, r1) =>
          match after ":" (skip_ws r1) with
          | Some r2 =>
              match scan_once (skip_ws r2) with
              | Some (v, r3) =>
                  let acc' := PyDict.set key v acc in
                  match after "}" (skip_ws r3), after "," (skip_ws r3) with
                  | Some rest, _ => Some (PDict acc', rest)
                  | None, Some r4 => object_items (skip_ws r4) acc'
                  | None, None => None
                  end
              | None => None
              end
          | None => None
          end
      | None => None
      end
  | None => None
  end.

(** One turn of the loop of [JSONArray]: a value, then the closing bracket
    or a comma and the next turn. *)
Definition array_item (scan_once : string -> scanned)
           (array_items : string -> list pyval -> scanned)
           (s : string) (acc : list pyval) : scanned :=
  match scan_once s with
  | Some (v, r1) =>
      match after "]" (skip_ws r1), after "," (skip_ws r1) with
      | Some rest, _ => Some (PList (acc ++ [v])%list, rest)
      | None, Some r2 => array_items (skip_ws r2) (acc ++ [v])%list
      | None, None => None
      end
  | None => None
  end.

(** The three scanners, tied together. Each call uses one unit of [fuel];
    [loads] gives them more than any text needs. *)
Fixpoint scan_once (fuel : nat) (s : string) {struct fuel} : scanned :=
  match fuel with
  | O => None
  | S k => scan_value (object_items k) (array_items k) s
  end

with object_items (fuel : nat) (s : string) (acc : list (string * pyval))
     {struct fuel} : scanned :=
  match fuel with
  | O => None
  | S k => object_item (scan_once k) (object_items k) s acc
  end

with array_items (fuel : nat) (s : string) (acc : list pyval)
     {struct fuel} : scanned :=
  match fuel with
  | O => None
  | S k => array_item (scan_once k) (array_items k) s acc
  end.

(** [json.loads(s)]: one value, white space allowed around it, nothing
    else after it. [None] stands for [JSONDecodeError]. *)
Definition loads (s : string) : option pyval :=
  match scan_once (S (String.length s)) (skip_ws s) with
  | Some (v, rest) =>
      match skip_ws rest with
      | EmptyString => Some v
      | String _ _ => None
      end
  | None => None
  end.

End Json.

(* ===================================================================== *)
(** ** Computations with a trace and exceptions *)
(* ===================================================================== *)

(** A computation that leaves a trace of events of type [E] and either
    raises or returns. *)
Definition Run (E A : Type) : Type := list E * (Exn + A).

Definition ret {E A} (a : A) : Run E A := ([], inr a).
Definition raise {E A} (e : Exn) : Run E A := ([], inl e).
Definition emit {E} (ev : E) : Run E unit := ([ev], inr tt).
Definition lift {E A} (r : Exn + A) : Run E A := ([], r).

Definition bind {E A B} (m : Run E A) (k : A -> Run E B) : Run E B :=
  match m with
  | (t, inl e) => (t, inl e)
  | (t, inr a) => let (t', r) := k a in ((t ++ t')%list, r)
  end.

Declare Scope run_scope.
Delimit Scope run_scope with run.
Notation "x <- m ;; k" := (bind m (fun x => k))
  (at level 61, m at next level, right associativity) : run_scope.
Notation "m ;;; k" := (bind m (fun _ => k))
  (at level 61, right associativity) : run_scope.

(* ===================================================================== *)
(** ** ThreatAnalyzer: [analyze_threat_with_groq] *)
(* ===================================================================== *)

(** An accumulated detection, as the stop request carries it: the two
    keys the analyzer reads, a string and a number. Items without these
    keys, or with values of other types, are not detections. *)
Record Detection : Type := {
  class_name : string;
  confidence : Q
}.

(** The request handed to [requests.post]. *)
Record Request : Type := {
  url : string;
  headers : list (string * string);
  json : pyval
}.

(** What the analyzer reads of a [requests.Response]. *)
Record Response : Type := {
  status_code : Z;
  text : string
}.

(** The world of the analyzer: the environment variable and the
    reasoning service, which answers a request or makes [requests.post]
    raise. *)
Record Env : Type := {
  GROQ_API_KEY : option string;
  requests_post : Request -> Exn + Response
}.

Inductive AnalyzerEvent : Type :=
| Posted (req : Request)
| Printed (e : Exn).

Module Analyzer.

Local Open Scope run_scope.

Definition nl : string := String "010" "".

(** The report of an empty session (lines 117-125). *)
Definition empty_report : pyval :=
  PDict [
    ("threat_level", PStr "low");
    ("threat_percentage", PInt 0);
    ("risk_breakdown", PDict [("high", PInt 0); ("medium", PInt 0); ("low", PInt 100)]);
    ("flagged_content", PStr "No objects detected during the session.");
    ("detected_keywords", PList []);
    ("summary", PStr "No threats detected in the video analysis session.");
    ("recommendations",
      PList [PStr "Continue regular monitoring"; PStr "No immediate action required"])
  ].

(** [object_list] and [objects_text] (lines 128-132). *)
Definition object_list (accumulated_objects : list Detection) : list string :=
  map (fun obj => class_name obj ++ " (confidence: " ++ format_2f (confidence obj) ++ ")")
      accumulated_objects.

Definition objects_text (accumulated_objects : list Detection) : string :=
  join ", " (object_list accumulated_objects).

(** The prompt (lines 135-156), line by line. *)
Definition prompt (accumulated_objects : list Detection) : string :=
  join nl [
    "";
    "    Analyze the following objects detected in a security video feed and provide a comprehensive threat assessment:";
    "";
    "    Detected Objects: " ++ objects_text accumulated_objects;
    "";
    "    Please provide a detailed analysis in the following JSON format:";
    "    {";
    py "        'threat_level': 'high/medium/low',";
    py "        'threat_percentage': <number 0-100>,";
    py "        'risk_breakdown': {";
    py "            'high': <percentage>,";
    py "            'medium': <percentage>, ";
    py "            'low': <percentage>";
    "        },";
    py "        'flagged_content': '<explanation of concerning objects>',";
    py "        'detected_keywords': ['<list of concerning object names>'],";
    py "        'summary': '<overall assessment summary>',";
    py "        'recommendations': ['<list of recommended actions>']";
    "    }";
    "";
    "    Focus on security threats, weapons, dangerous objects, and potential risks. Be thorough in your analysis.";
    "    "
  ].

(** The request of lines 167-186. *)
Definition groq_request (groq_api_key the_prompt : string) : Request :=
  {| url := "https://api.groq.com/openai/v1/chat/completions";
     headers := [("Authorization", "Bearer " ++ groq_api_key);
                 ("Content-Type", "application/json")];
     json := PDict [
       ("messages", PList [
          PDict [("role", PStr "system");
                 ("content", PStr "You are a security threat analysis expert. Analyze detected objects and provide comprehensive threat assessments.")];
          PDict [("role", PStr "user"); ("content", PStr the_prompt)]]);
       ("model", PStr "mixtral-8x7b-32768");
       ("temperature", PFloat "0.1");
       ("max_tokens", PInt 1000)] |}.

(** [requests.post(...)], recorded in the trace. *)
Definition post (env : Env) (req : Request) : Run AnalyzerEvent Response :=
  emit (Posted req) ;;; lift (requests_post env req).

(** [response.json()] *)
Definition response_json (response : Response) : Exn + pyval :=
  match Json.loads (text response) with
  | Some v => inr v
  | None => inl JSONDecodeError
  end.

(** [response_data["choices"][0]["message"]["content"]] (line 190). *)
Definition message_content (response_data : pyval) : Exn + pyval :=
  match getitem_str response_data "choices" with
  | inr choices =>
      match getitem_0 choices with
      | inr choice =>
          match getitem_str choice "message" with
          | inr message => getitem_str message "content"
          | inl e => inl e
          end
      | inl e => inl e
      end
  | inl e => inl e
  end.

(** The suffix of [s] that starts at its first opening brace. *)
Fixpoint from_first_open (s : string) : option string :=
  match s with
  | EmptyString => None
  | String c r => if Ascii.eqb c "{" then Some s else from_first_open r
  end.

(** The longest prefix of [s] that ends in a closing brace. *)
Fixpoint upto_last_close (s : string) : option string :=
  match s with
  | EmptyString => None
  | String c r =>
      match upto_last_close r with
      | Some t => Some (String c t)
      | None => if Ascii.eqb c "}" then Some (String c "") else None
      end
  end.

(** [re.search(r'\{.*\}', s, re.DOTALL)] and [.group()]: the leftmost
    opening brace that has a closing brace after it, up to the last
    closing brace of [s]; with [DOTALL] the dot matches every character. *)
Definition search_braces (s : string) : option string :=
  match from_first_open s with
  | Some (String c r) =>
      match upto_last_close r with
      | Some t => Some (String c t)
      | None => None
      end
  | _ => None
  end.

(** [re.search] on a value: [TypeError] unless it is a string. *)
Definition re_search (v : pyval) : Exn + option string :=
  match v with
  | PStr s => inr (search_braces s)
  | _ => inl TypeError
  end.

(** [json.loads(s)] *)
Definition json_loads (s : string) : Exn + pyval :=
  match Json.loads s with
  | Some v => inr v
  | None => inl JSONDecodeError
  end.

(** The body of the [try] (lines 159-201). *)
Definition groq_analysis (env : Env) (the_prompt : string) : Run AnalyzerEvent pyval :=
  match GROQ_API_KEY env with
  | None | Some EmptyString =>
      raise (ValueError "GROQ_API_KEY environment variable not set")
  | Some groq_api_key =>
      response <- post env (groq_request groq_api_key the_prompt) ;;
      if status_code response =? 200 then
        response_data <- lift (response_json response) ;;
        analysis_text <- lift (message_content response_data) ;;
        json_match <- lift (re_search analysis_text) ;;
        match json_match with
        | Some matched =>
            analysis_json <- lift (json_loads matched) ;;
            ret analysis_json
        | None => raise (ValueError "No valid JSON found in response")
        end
      else
        raise (ValueError ("API request failed with status code "
                             ++ str_of_Z (status_code response) ++ ": " ++ text response))
  end.

(** The test of the comprehension of lines 206-211. *)
Definition is_dangerous (obj : Detection) : bool :=
  (contains "weapon" (lower (class_name obj)) ||
   contains "knife" (lower (class_name obj)) ||
   contains "gun" (lower (class_name obj)) ||
   contains "scissors" (lower (class_name obj)))%bool.

Definition detected_keywords (accumulated_objects : list Detection) : list string :=
  map class_name (filter is_dangerous accumulated_objects).

(** The handler of the [except] (lines 206-240). *)
Definition fallback_report (accumulated_objects : list Detection) : pyval :=
  let detected_keywords := detected_keywords accumulated_objects in
  match detected_keywords with
  | _ :: _ =>
      let threat_percentage := Z.min 100 (Z.of_nat (length detected_keywords) * 20) in
      PDict [
        ("threat_level", PStr "high");
        ("threat_percentage", PInt threat_percentage);
        ("risk_breakdown",
          PDict [("high", PInt threat_percentage);
                 ("medium", PInt (100 - threat_percentage));
                 ("low", PInt 0)]);
        ("flagged_content",
          PStr ("Dangerous objects detected: " ++ join ", " detected_keywords ++ "."));
        ("detected_keywords", PList (map PStr detected_keywords));
        ("summary",
          PStr ("High-risk situation detected with "
                  ++ str_of_nat (length detected_keywords) ++ " dangerous objects."));
        ("recommendations",
          PList [PStr "Issue immediate alert: sharp weapon detected";
                 PStr "Alert local law enforcement for potential threat";
                 PStr "Discourage any approach — object could be concealed or used rapidly"])
      ]
  | [] =>
      PDict [
        ("threat_level", PStr "low");
        ("threat_percentage", PInt 0);
        ("risk_breakdown", PDict [("high", PInt 0); ("medium", PInt 0); ("low", PInt 100)]);
        ("flagged_content", PStr "No dangerous objects detected.");
        ("detected_keywords", PList (map PStr detected_keywords));
        ("summary", PStr "Low-risk situation based on detected objects.");
        ("recommendations",
          PList [PStr "Continue monitoring"; PStr "No immediate action required"])
      ]
  end.

(** [analyze_threat_with_groq(accumulated_objects)]; the argument is
    [None] or a list. *)
Definition analyze_threat_with_groq (env : Env) (accumulated_objects : option (list Detection))
  : list AnalyzerEvent * pyval :=
  match accumulated_objects with
  | None | Some [] => ([], empty_report)
  | Some objs =>
      match groq_analysis env (prompt objs) with
      | (t, inr analysis_json) => (t, analysis_json)
      | (t, inl e) => ((t ++ [Printed e])%list, fallback_report objs)
      end
  end.

(** The seven fields of a ThreatReport. *)
Definition report_fields : list string :=
  ["threat_level"; "threat_percentage"; "risk_breakdown"; "flagged_content";
   "detected_keywords"; "summary"; "recommendations"].

Definition has_all_fields (report : pyval) : bool :=
  forallb (fun k => match field k report with Some _ => true | None => false end)
          report_fields.

Definition is_post (ev : AnalyzerEvent) : bool :=
  match ev with Posted _ => true | Printed _ => false end.

End Analyzer.

(* ===================================================================== *)
(** ** BroadcastHub: [connected_websockets] and [broadcast_detection_data] *)
(* ===================================================================== *)

(** A connection object, known by its identity. *)
Definition WebSocket : Type := nat.

Module Hub.

(** What a publish does, in order: a send attempted on a connection, with
    its outcome, and a connection taken out of the list. *)
Inductive HubEvent (D : Type) : Type :=
| SendText (ws : WebSocket) (data : D) (ok : bool)
| Remove (ws : WebSocket).

Arguments SendText {D} ws data ok.
Arguments Remove {D} ws.

(** [l.remove(x)]: the list without its first [x]; [ValueError] when [x]
    is not in it. *)
Fixpoint list_remove (x : WebSocket) (l : list WebSocket) : Exn + list WebSocket :=
  match l with
  | [] => inl (ValueError "list.remove(x): x not in list")
  | y :: r =>
      if Nat.eqb x y then inr r
      else match list_remove x r with
           | inr r' => inr (y :: r')
           | inl e => inl e
           end
  end.

Section Publish.

Variable D : Type.

(** Whether [send_text] on a connection returns ([true]) or raises. *)
Variable send_ok : WebSocket -> bool.

(** The first loop (lines 46-50): one send per connection, the failing
    ones appended to [disconnected]. *)
Fixpoint send_all (data : D) (connected disconnected : list WebSocket)
  : list (HubEvent D) * list WebSocket :=
  match connected with
  | [] => ([], disconnected)
  | websocket :: rest =>
      let disconnected' :=
        if send_ok websocket then disconnected else (disconnected ++ [websocket])%list in
      let (t, d) := send_all data rest disconnected' in
      (SendText websocket data (send_ok websocket) :: t, d)
  end.

(** The second loop (lines 53-54). *)
Fixpoint remove_all (disconnected connected_websockets : list WebSocket)
  : list (HubEvent D) * (Exn + list WebSocket) :=
  match disconnected with
  | [] => ([], inr connected_websockets)
  | ws :: rest =>
      match list_remove ws connected_websockets with
      | inr l => let (t, r) := remove_all rest l in (Remove ws :: t, r)
      | inl e => ([], inl e)
      end
  end.

(** [broadcast_detection_data(data)] on the list [connected_websockets];
    returns the list as the call leaves it. *)
Definition broadcast_detection_data (data : D) (connected_websockets : list WebSocket)
  : list (HubEvent D) * (Exn + list WebSocket) :=
  match connected_websockets with
  | [] => ([], inr connected_websockets)
  | _ :: _ =>
      let (t1, disconnected) := send_all data connected_websockets [] in
      let (t2, r) := remove_all disconnected connected_websockets in
      ((t1 ++ t2)%list, r)
  end.

End Publish.

Arguments send_all {D}.
Arguments remove_all {D}.
Arguments broadcast_detection_data {D}.

(** One call of [broadcast_detection_data] per frame, as [detection_loop]
    makes them (line 104); an exception ends the loop. *)
Fixpoint broadcast_frames {D} (frames : list ((WebSocket -> bool) * D))
         (connected_websockets : list WebSocket)
  : list (HubEvent D) * (Exn + list WebSocket) :=
  match frames with
  | [] => ([], inr connected_websockets)
  | (send_ok, data) :: rest =>
      match broadcast_detection_data send_ok data connected_websockets with
      | (t, inr l) => let (t', r) := broadcast_frames rest l in ((t ++ t')%list, r)
      | (t, inl e) => (t, inl e)
      end
  end.

(** [websocket_endpoint], on accepting the connection (line 291). *)
Definition websocket_endpoint_accept (websocket : WebSocket) (connected_websockets : list WebSocket)
  : list WebSocket :=
  (connected_websockets ++ [websocket])%list.

(** [websocket_endpoint], on [WebSocketDisconnect] (lines 297-298). *)
Definition websocket_endpoint_disconnect (websocket : WebSocket) (connected_websockets : list WebSocket)
  : Exn + list WebSocket :=
  list_remove websocket connected_websockets.

(** The connections a trace attempted a send on. *)
Definition attempted {D} (t : list (HubEvent D)) : list WebSocket :=
  flat_map (fun ev => match ev with SendText ws _ _ => [ws] | Remove _ => [] end) t.

(** The connections a trace delivered to. *)
Definition delivered {D} (t : list (HubEvent D)) : list WebSocket :=
  flat_map (fun ev => match ev with SendText ws _ true => [ws] | _ => [] end) t.

Definition is_send {D} (ev : HubEvent D) : bool :=
  match ev with SendText _ _ _ => true | Remove _ => false end.

End Hub.

(* ===================================================================== *)
(** ** DetectionWorker: the body of [detection_loop] for one frame *)
(* ===================================================================== *)

Module Worker.

(** A box of the detector: [box.conf[0]], [box.xyxy[0]], [box.cls[0]]. *)
Record Box : Type := {
  conf : Q;
  xyxy : Q * Q * Q * Q;
  cls : Q
}.

(** One element of [yolo.track(frame, stream=True)]. *)
Record Result : Type := {
  names : list (Z * string);
  boxes : list Box
}.

Record DetectedObject : Type := {
  class_name : string;
  confidence : Q;
  bbox : Z * Z * Z * Z
}.

Record DetectionData : Type := {
  objects : list DetectedObject;
  timestamp : string;
  frame_width : Z;
  frame_height : Z
}.

(** [int(x)]: rounding towards zero. *)
Definition int (x : Q) : Z := Z.quot (Qnum x) (Zpos (Qden x)).

(** [x > y] *)
Definition Qgtb (x y : Q) : bool := negb (Qle_bool x y).

(** [classes_names[cls]] *)
Fixpoint names_get (classes_names : list (Z * string)) (k : Z) : Exn + string :=
  match classes_names with
  | [] => inl (KeyError (str_of_Z k))
  | (k', v) :: r => if k =? k' then inr v else names_get r k
  end.

(** Lines 73-84: the object appended for a box that passed the test. *)
Definition detected_object (classes_names : list (Z * string)) (box : Box) : Exn + DetectedObject :=
  let '(x1, y1, x2, y2) := xyxy box in
  match names_get classes_names (int (cls box)) with
  | inr class_name =>
      inr {| class_name := class_name;
             confidence := conf box;
             bbox := (int x1, int y1, int x2, int y2) |}
  | inl e => inl e
  end.

(** The loop of lines 71-84 over the boxes of one result. *)
Fixpoint for_boxes (classes_names : list (Z * string)) (bs : list Box)
         (detected_objects : list DetectedObject) : Exn + list DetectedObject :=
  match bs with
  | [] => inr detected_objects
  | box :: rest =>
      if Qgtb (conf box) (4 # 10) then
        match detected_object classes_names box with
        | inr o => for_boxes classes_names rest (detected_objects ++ [o])%list
        | inl e => inl e
        end
      else for_boxes classes_names rest detected_objects
  end.

(** The loop of lines 68-84 over the results of one frame. *)
Fixpoint for_results (results : list Result) (detected_objects : list DetectedObject)
  : Exn + list DetectedObject :=
  match results with
  | [] => inr detected_objects
  | result :: rest =>
      match for_boxes (names result) (boxes result) detected_objects with
      | inr d => for_results rest d
      | inl e => inl e
      end
  end.

(** Lines 65-101: the batch built for a frame. *)
Definition detection_data (results : list Result) (now : string) (width height : Z)
  : Exn + DetectionData :=
  match for_results results [] with
  | inr detected_objects =>
      inr {| objects := detected_objects;
             timestamp := now;
             frame_width := width;
             frame_height := height |}
  | inl e => inl e
  end.

End Worker.

(* ===================================================================== *)
(** ** StreamController: [start_stream] and [stop_stream] *)
(* ===================================================================== *)

Module Controller.

(** The globals of the module, with the part of the world they refer to:
    a capture object or a thread object is known by its identity;
    [opened] lists the capture objects that hold the device, [alive] the
    thread objects whose [detection_loop] has not returned. *)
Record Session : Type := {
  video_capture : option nat;
  streaming : bool;
  detection_thread : option nat;
  opened : list nat;
  alive : list nat;
  next_capture : nat;
  next_thread : nat
}.

Inductive ControllerEvent : Type :=
| Release (cap : nat)
| VideoCapture (cap : nat) (is_opened : bool)
| Join (thread : nat) (finished : bool)
| Start (thread : nat).

(** The state of the module when it is loaded (lines 29-32). *)
Definition initial : Session :=
  {| video_capture := None; streaming := false; detection_thread := None;
     opened := []; alive := []; next_capture := 0%nat; next_thread := 0%nat |}.

Definition without (x : nat) (l : list nat) : list nat :=
  filter (fun y => negb (Nat.eqb x y)) l.

Definition mem (x : nat) (l : list nat) : bool := existsb (Nat.eqb x) l.

(** [cap.release()] *)
Definition release (cap : nat) (s : Session) : Session :=
  {| video_capture := video_capture s; streaming := streaming s;
     detection_thread := detection_thread s;
     opened := without cap (opened s); alive := alive s;
     next_capture := next_capture s; next_thread := next_thread s |}.

Definition set_video_capture (v : option nat) (s : Session) : Session :=
  {| video_capture := v; streaming := streaming s;
     detection_thread := detection_thread s;
     opened := opened s; alive := alive s;
     next_capture := next_capture s; next_thread := next_thread s |}.

Definition set_streaming (b : bool) (s : Session) : Session :=
  {| video_capture := video_capture s; streaming := b;
     detection_thread := detection_thread s;
     opened := opened s; alive := alive s;
     next_capture := next_capture s; next_thread := next_thread s |}.

(** [cv2.VideoCapture(0)]: a new capture object, which holds the device
    when the camera could be opened. *)
Definition new_capture (camera_ok : bool) (s : Session) : nat * Session :=
  let cap := next_capture s in
  (cap,
   {| video_capture := video_capture s; streaming := streaming s;
      detection_thread := detection_thread s;
      opened := if camera_ok then cap :: opened s else opened s;
      alive := alive s;
      next_capture := S cap; next_thread := next_thread s |}).

(** [cap.isOpened()] *)
Definition isOpened (cap : nat) (s : Session) : bool := mem cap (opened s).

(** [thread.is_alive()] *)
Definition is_alive (thread : nat) (s : Session) : bool := mem thread (alive s).

(** The test of the [while] of [detection_loop] (line 60). *)
Definition loop_condition (s : Session) : bool :=
  (streaming s && match video_capture s with Some _ => true | None => false end)%bool.

(** The end of [detection_loop] in thread [thread] (lines 109-112): the
    capture object the global names at that moment is released, and the
    thread is no longer alive. *)
Definition detection_loop_exit (thread : nat) (s : Session) : list ControllerEvent * Session :=
  let (t, s1) :=
    match video_capture s with
    | Some cap => ([Release cap], release cap s)
    | None => ([], s)
    end in
  (t,
   {| video_capture := video_capture s1; streaming := streaming s1;
      detection_thread := detection_thread s1;
      opened := opened s1; alive := without thread (alive s1);
      next_capture := next_capture s1; next_thread := next_thread s1 |}).

(** [thread.join(timeout=1.0)]: within the second the thread either
    leaves its loop and returns ([finished]), or it does not. *)
Definition join (thread : nat) (finished : bool) (s : Session) : list ControllerEvent * Session :=
  if finished then
    let (t, s') := detection_loop_exit thread s in ((t ++ [Join thread true])%list, s')
  else ([Join thread false], s).

(** [threading.Thread(target=detection_loop)] assigned to the global, and
    [start()]. *)
Definition start_thread (s : Session) : list ControllerEvent * Session :=
  let thread := next_thread s in
  ([Start thread],
   {| video_capture := video_capture s; streaming := streaming s;
      detection_thread := Some thread;
      opened := opened s; alive := thread :: alive s;
      next_capture := next_capture s; next_thread := S thread |}).

(** [start_stream()] (lines 243-269). [camera_ok] tells whether the
    camera opens, [finished] whether a joined thread returns in time. *)
Definition start_stream (camera_ok finished : bool) (s : Session)
  : list ControllerEvent * Session * pyval :=
  let (t1, s1) :=
    match video_capture s with
    | Some cap => ([Release cap], set_video_capture None (release cap s))
    | None => ([], s)
    end in
  let (cap, s2) := new_capture camera_ok s1 in
  let s3 := set_video_capture (Some cap) s2 in
  let t2 := (t1 ++ [VideoCapture cap (isOpened cap s3)])%list in
  if negb (isOpened cap s3) then
    (t2, s3, PDict [("error", PStr "Could not open camera")])
  else
    let s4 := set_streaming true s3 in
    let (t3, s5) :=
      match detection_thread s4 with
      | Some thread =>
          if is_alive thread s4 then join thread finished (set_streaming false s4)
          else ([], s4)
      | None => ([], s4)
      end in
    let (t4, s6) := start_thread s5 in
    ((t2 ++ t3 ++ t4)%list, s6, PDict [("message", PStr "Streaming started")]).

(** The body of a stop request: [accumulated_objects] left out, [null],
    or a list. *)
Inductive BodyField : Type :=
| Omitted
| Null
| Items (l : list Detection).

(** [StopStreamRequest] (lines 271-272). *)
Record StopStreamRequest : Type := {
  accumulated_objects : option (list Detection)
}.

(** The request built from a body: the default of the field is [[]]. *)
Definition parse_request (body : BodyField) : StopStreamRequest :=
  {| accumulated_objects :=
       match body with
       | Omitted => Some []
       | Null => None
       | Items l => Some l
       end |}.

(** [stop_stream(request)] (lines 275-286). *)
Definition stop_stream (env : Env) (request : StopStreamRequest) (s : Session)
  : list AnalyzerEvent * Session * pyval :=
  let s1 := set_streaming false s in
  let (t, analysis) := Analyzer.analyze_threat_with_groq env (accumulated_objects request) in
  (t, s1, PDict [("message", PStr "Streaming stopped"); ("analysis", analysis)]).

(** Every capture object that holds the device is the one the global
    names. *)
Definition owned (s : Session) : Prop :=
  forall cap, In cap (opened s) -> video_capture s = Some cap.

(** Capture objects not created yet hold nothing. *)
Definition fresh (s : Session) : Prop :=
  forall cap, In cap (opened s) -> (cap < next_capture s)%nat.

End Controller.

(* ===================================================================== *)
(** ** Box colours: [getColours] *)
(* ===================================================================== *)

Module Colours.

(** A tuple of three integers is the list of its components. *)
Definition base_colors : list (list Z) := [[255; 0; 0]; [0; 255; 0]; [0; 0; 255]].

Definition increments : list (list Z) := [[1; -2; 1]; [-2; 1; -1]; [1; -1; 2]].

(** [l[i]] for an index within the list; [getColours] uses no other. *)
Definition item {A} (l : list A) (i : Z) (d : A) : A := nth (Z.to_nat i) l d.

(** [getColours(cls_num)] (lines 34-40). In the source [*] and [%] bind
    alike and group to the left, and tighter than [+]: the remainder is
    taken of the product, and the base is added to it. *)
Definition getColours (cls_num : Z) : list Z :=
  let color_index := cls_num mod Z.of_nat (length base_colors) in
  map (fun i =>
         item (item base_colors color_index []) i 0
         + (item (item increments color_index []) i 0
            * (cls_num / Z.of_nat (length base_colors))) mod 256)
      [0; 1; 2].

End Colours.

(* ===================================================================== *)
(** ** DetectionWorker: the loop of [detection_loop] *)
(* ===================================================================== *)

Module Loop.

(** What a frame that was read brings: the results of the detector on it,
    the time, and its shape. *)
Record Grabbed : Type := {
  results : list Worker.Result;
  now : string;
  width : Z;
  height : Z
}.

(** What the thread meets in one turn of the loop: the globals as it finds
    them, the outcome of [video_capture.read()] ([None] when [ret] is
    false), the outcome of the sends, and the value of [cv2.waitKey(1)]. *)
Record Turn : Type := {
  seen : Controller.Session;
  grabbed : option Grabbed;
  send_ok : WebSocket -> bool;
  key : Z
}.

Inductive WorkerEvent : Type :=
| Read (ok : bool)
| Sent (ev : Hub.HubEvent Worker.DetectionData)
| Cleanup (ev : Controller.ControllerEvent).

(** How a run of the loop stands after the turns it was given: the function
    returned, leaving the session in some state; an exception ended the
    thread; or the loop is still turning. *)
Inductive LoopEnd : Type :=
| Returned (s : Controller.Session)
| Died (e : Exn) (s : Controller.Session)
| Turning.

(** [cv2.waitKey(1) & 0xFF == ord('q')] (line 106). *)
Definition quit_key (key : Z) : bool := Z.land key 255 =? 113.

(** The session when an exception ends the thread: nothing is released. *)
Definition thread_dies (thread : nat) (s : Controller.Session) : Controller.Session :=
  {| Controller.video_capture := Controller.video_capture s;
     Controller.streaming := Controller.streaming s;
     Controller.detection_thread := Controller.detection_thread s;
     Controller.opened := Controller.opened s;
     Controller.alive := Controller.without thread (Controller.alive s);
     Controller.next_capture := Controller.next_capture s;
     Controller.next_thread := Controller.next_thread s |}.

(** The lines after the loop (109-112). *)
Definition leave (thread : nat) (s : Controller.Session) (connected_websockets : list WebSocket)
  : list WorkerEvent * LoopEnd * list WebSocket :=
  let (t, s') := Controller.detection_loop_exit thread s in
  (map Cleanup t, Returned s', connected_websockets).

(** [detection_loop()] run by [thread] (lines 56-112), over the turns it
    is given. *)
Fixpoint detection_loop (thread : nat) (turns : list Turn) (connected_websockets : list WebSocket)
  : list WorkerEvent * LoopEnd * list WebSocket :=
  match turns with
  | [] => ([], Turning, connected_websockets)
  | turn :: rest =>
      if negb (Controller.loop_condition (seen turn)) then
        leave thread (seen turn) connected_websockets
      else
        match grabbed turn with
        | None =>
            let '(t, e, l) := detection_loop thread rest connected_websockets in
            (Read false :: t, e, l)
        | Some frame =>
            match Worker.detection_data (results frame) (now frame) (width frame) (height frame) with
            | inl e => ([Read true], Died e (thread_dies thread (seen turn)), connected_websockets)
            | inr detection_data =>
                match Hub.broadcast_detection_data (send_ok turn) detection_data
                        connected_websockets with
                | (t1, inl e) =>
                    (Read true :: map Sent t1, Died e (thread_dies thread (seen turn)),
                     connected_websockets)
                | (t1, inr l1) =>
                    if quit_key (key turn) then
                      let '(t, e, l) := leave thread (seen turn) l1 in
                      ((Read true :: map Sent t1) ++ t, e, l)%list
                    else
                      let '(t, e, l) := detection_loop thread rest l1 in
                      ((Read true :: map Sent t1) ++ t, e, l)%list
                end
            end
        end
  end.

(** The connections a trace of the worker attempted a send on. *)
Definition sends (t : list WorkerEvent) : list WebSocket :=
  flat_map (fun ev => match ev with Sent (Hub.SendText ws _ _) => [ws] | _ => [] end) t.

(** A trace of the worker releases a capture object. *)
Definition releases (t : list WorkerEvent) : bool :=
  existsb (fun ev => match ev with Cleanup (Controller.Release _) => true | _ => false end) t.

End Loop.

(* ===================================================================== *)
(** ** Vocabulary of the properties *)
(* ===================================================================== *)

(** The keywords of the fallback. *)
Definition keywords : list string := ["weapon"; "knife"; "gun"; "scissors"].

(** A usable credential: the variable is set and not empty. *)
Definition credential (env : Env) : option string :=
  match GROQ_API_KEY env with
  | Some (String c r) => Some (String c r)
  | _ => None
  end.

(** What the body of the [try] makes of a reply with status 200
    (lines 189-199). *)
Definition reply_analysis (response : Response) : Exn + pyval :=
  match Analyzer.response_json response with
  | inl e => inl e
  | inr response_data =>
      match Analyzer.message_content response_data with
      | inl e => inl e
      | inr analysis_text =>
          match Analyzer.re_search analysis_text with
          | inl e => inl e
          | inr None => inl (ValueError "No valid JSON found in response")
          | inr (Some matched) => Analyzer.json_loads matched
          end
      end
  end.

(** The character [c] occurs in [s]. *)
Fixpoint occurs (c : ascii) (s : string) : Prop :=
  match s with
  | EmptyString => False
  | String a r => a = c \/ occurs c r
  end.

(** A scanner [f] does what [g] does, wherever [f] reads something. *)
Definition below {A} (f g : A -> Json.scanned) : Prop :=
  forall a x, f a = Some x -> g a = Some x.

Definition below2 {A B} (f g : A -> B -> Json.scanned) : Prop :=
  forall a b x, f a b = Some x -> g a b = Some x.

(** The test of the [except] of line 49, on a connection: its send raised. *)
Definition failing (send_ok : WebSocket -> bool) (ws : WebSocket) : bool := negb (send_ok ws).

(** The test of line 72. *)
Definition passes (box : Worker.Box) : bool := Worker.Qgtb (Worker.conf box) (4 # 10).

(** A trace of the worker without its failed reads. *)
Definition read_frames (t : list Loop.WorkerEvent) : list Loop.WorkerEvent :=
  filter (fun ev => match ev with Loop.Read false => false | _ => true end) t.

(** The boxes of a frame that pass the test of line 72, each with the
    result it belongs to, in the order of the detector. *)
Definition passing_boxes (results : list Worker.Result) : list (Worker.Result * Worker.Box) :=
  flat_map (fun result => map (pair result) (filter passes (Worker.boxes result))) results.

(** The object that stands for a box in a batch. *)
Definition stands_for (rb : Worker.Result * Worker.Box) (o : Worker.DetectedObject) : Prop :=
  let '(x1, y1, x2, y2) := Worker.xyxy (snd rb) in
  Worker.names_get (Worker.names (fst rb)) (Worker.int (Worker.cls (snd rb)))
    = inr (Worker.class_name o) /\
  Worker.confidence o = Worker.conf (snd rb) /\
  Worker.bbox o = (Worker.int x1, Worker.int y1, Worker.int x2, Worker.int y2).

(** The sessions that the handlers and the worker can bring about from the
    state of the module at load time: by a start, a stop, the return of
    [detection_loop] in some thread, or the death of a thread. *)
Inductive reachable : Controller.Session -> Prop :=
| reach_initial : reachable Controller.initial
| reach_start (s : Controller.Session) (camera_ok finished : bool) :
    reachable s -> reachable (snd (fst (Controller.start_stream camera_ok finished s)))
| reach_stop (s : Controller.Session) (env : Env) (request : Controller.StopStreamRequest) :
    reachable s -> reachable (snd (fst (Controller.stop_stream env request s)))
| reach_exit (s : Controller.Session) (thread : nat) :
    reachable s -> reachable (snd (Controller.detection_loop_exit thread s))
| reach_death (s : Controller.Session) (thread : nat) :
    reachable s -> reachable (Loop.thread_dies thread s).

(** Whether the thread the global names is alive. *)
Definition worker_alive (s : Controller.Session) : bool :=
  match Controller.detection_thread s with
  | Some thread => Controller.is_alive thread s
  | None => false
  end.

(* ===================================================================== *)
(** ** Concrete sessions, used to run the definitions *)
(* ===================================================================== *)

Module Scenarios.

Definition knife : Detection := {| class_name := "knife"; confidence := 9 # 10 |}.
Definition cup : Detection := {| class_name := "cup"; confidence := 8 # 10 |}.

(** No credential in the environment. *)
Definition no_key : Env :=
  {| GROQ_API_KEY := None; requests_post := fun _ => inl RequestException |}.

(** A service that answers every request with the given status and body. *)
Definition replying (status : Z) (body : string) : Env :=
  {| GROQ_API_KEY := Some "gsk";
     requests_post := fun _ => inr {| status_code := status; text := body |} |}.

(** The body of a chat completion whose message content is the JSON string
    literal [content] (written without its quotes). *)
Definition chat_completion (content : string) : string :=
  py "{'choices': [{'index': 0, 'message': {'role': 'assistant', 'content': '"
    ++ content ++ py "'}}]}".

(** A reply whose content is the empty JSON object. *)
Definition empty_object_reply : Env := replying 200 (chat_completion "{}").

(** A reply whose content holds two JSON objects, one after the other. *)
Definition two_objects : string :=
  py "{'threat_level': 'low'} {'threat_level': 'high'}".

Definition two_objects_reply : Env :=
  replying 200 (chat_completion (py "{\'threat_level\': \'low\'} {\'threat_level\': \'high\'}")).

(** A reply whose content wraps one JSON object in prose. *)
Definition wrapped_object : string :=
  py "Assessment: {'threat_level': 'medium', 'risk_breakdown': {'high': 10}} (end)".

Definition wrapped_object_reply : Env :=
  replying 200 (chat_completion
    (py "Assessment: {\'threat_level\': \'medium\', \'risk_breakdown\': {\'high\': 10}} (end)")).

(** A frame with a box at the threshold and a box just above it. *)
Definition at_threshold : Worker.Box :=
  {| Worker.conf := 4 # 10; Worker.xyxy := (10 # 1, 20 # 1, 110 # 1, 220 # 1); Worker.cls := 0 |}.

Definition above_threshold : Worker.Box :=
  {| Worker.conf := 4001 # 10000;
     Worker.xyxy := (5 # 2, 7 # 2, 301 # 2, 401 # 2); Worker.cls := 43 # 1 |}.

Definition frame : list Worker.Result :=
  [{| Worker.names := [(0, "person"); (43, "knife")];
      Worker.boxes := [at_threshold; above_threshold] |}].

(** The session after a first successful start from the initial state. *)
Definition running : Controller.Session :=
  snd (fst (Controller.start_stream true false Controller.initial)).

(** The session after a stop of the running one. *)
Definition stopped : Controller.Session :=
  snd (fst (Controller.stop_stream no_key (Controller.parse_request Controller.Omitted) running)).

(** Sends that all succeed. *)
Definition all_ok : WebSocket -> bool := fun _ => true.

(** A turn of the loop in which the read fails. *)
Definition failed_read : Loop.Turn :=
  {| Loop.seen := running; Loop.grabbed := None; Loop.send_ok := all_ok; Loop.key := -1 |}.

(** A turn in which the frame of [frame] is read and no key is pressed. *)
Definition frame_turn : Loop.Turn :=
  {| Loop.seen := running;
     Loop.grabbed := Some {| Loop.results := frame; Loop.now := "2024-01-01 00:00:00";
                             Loop.width := 640; Loop.height := 480 |};
     Loop.send_ok := all_ok; Loop.key := -1 |}.

(** A turn after the stop. *)
Definition last_turn : Loop.Turn :=
  {| Loop.seen := stopped; Loop.grabbed := None; Loop.send_ok := all_ok; Loop.key := -1 |}.


End Scenarios.

(* ===================================================================== *)
(** * Properties *)
(* ===================================================================== *)

(** ** Strings *)

Section StringFacts.

Lemma startswith_spec (p s : string) :
  startswith p s = true <-> exists t, s = p ++ t.
Proof.
  revert s; induction p as [|a p IH]; intros s; simpl.
  - split; [intros _; now exists s | reflexivity].
  - destruct s as [|b s].
    + split; [discriminate | intros [t Ht]; discriminate].
    + rewrite andb_true_iff, Ascii.eqb_eq, IH. split.
      * intros [-> [t ->]]. now exists t.
      * intros [t Ht]. injection Ht as -> ->. split; [reflexivity | now exists t].
Qed.

Lemma contains_spec (sub s : string) :
  contains sub s = true <-> exists pre post, s = pre ++ sub ++ post.
Proof.
  induction s as [|c s IH].
  - simpl. rewrite orb_false_r, startswith_spec. split.
    + intros [t Ht]. now exists "", t.
    + intros [pre [post H]]. destruct pre; [now exists post | discriminate].
  - cbn [contains]. rewrite orb_true_iff, startswith_spec, IH. split.
    + intros [[t Ht] | [pre [post H]]].
      * now exists "", t.
      * exists (String c pre), post. simpl. now rewrite H.
    + intros [pre [post H]]. destruct pre as [|a pre].
      * left. now exists post.
      * right. injection H as _ H. now exists pre, post.
Qed.

End StringFacts.

(** ** The JSON reader never lacks fuel *)

Section JsonFuel.

Import Json.

Local Open Scope nat_scope.

Lemma skip_ws_length (s : string) : String.length (skip_ws s) <= String.length s.
Proof.
  induction s as [|c s IH]; simpl; [lia |]. destruct (is_ws c); simpl; lia.
Qed.

Lemma strip_length (p s r : string) :
  strip p s = Some r -> String.length s = String.length p + String.length r.
Proof.
  revert s; induction p as [|a p IH]; intros s; simpl.
  - now intros [= ->].
  - destruct s as [|b s]; [discriminate |].
    destruct (Ascii.eqb a b); [| discriminate]. intros H. apply IH in H. simpl. lia.
Qed.

Lemma digits_length (s d r : string) :
  digits s = (d, r) -> String.length s = String.length d + String.length r.
Proof.
  revert d r; induction s as [|c s IH]; intros d r; simpl.
  - now intros [= <- <-].
  - destruct (is_digit c).
    + destruct (digits s) as [d' r'] eqn:Hd. intros [= <- <-].
      specialize (IH _ _ eq_refl). simpl. lia.
    + now intros [= <- <-].
Qed.

Lemma scanstring_length_bound (n : nat) :
  forall s t r, String.length s <= n -> scanstring s = Some (t, r) ->
                String.length r < String.length s.
Proof.
  induction n as [|n IH]; intros s t r Hn H.
  - destruct s; [discriminate | simpl in Hn; lia].
  - destruct s as [|c s]; [discriminate |]. simpl in Hn. cbn [scanstring] in H.
    repeat match type of H with
           | context [if ?b then _ else _] => destruct b
           | context [match scanstring ?x with _ => _ end] =>
               let E := fresh "E" in
               destruct (scanstring x) as [[? ?] |] eqn:E;
               [apply IH in E; [| simpl in *; lia] |]
           | context [match ?x with _ => _ end] => destruct x
           end;
      try discriminate; injection H as <- <-; simpl in *; lia.
Qed.

Lemma scanstring_length (s t r : string) :
  scanstring s = Some (t, r) -> String.length r < String.length s.
Proof. apply (scanstring_length_bound (String.length s)). lia. Qed.

Lemma int_part_length (s i r : string) :
  int_part s = Some (i, r) -> String.length r < String.length s.
Proof.
  unfold int_part. destruct s as [|c s]; [discriminate |].
  destruct (Ascii.eqb c "0"); [intros [= <- <-]; simpl; lia |].
  destruct (is_digit c) eqn:Hc; [| discriminate].
  intros [= H]. simpl in H. rewrite Hc in H.
  destruct (digits s) as [d r'] eqn:Hd. injection H as <- <-.
  apply digits_length in Hd. simpl. lia.
Qed.

Lemma frac_part_length (s f r : string) :
  frac_part s = (f, r) -> String.length r <= String.length s.
Proof.
  unfold frac_part. destruct s as [|c s]; [intros [= <- <-]; lia |].
  destruct (Ascii.eqb c "."); [| intros [= <- <-]; lia].
  destruct (digits s) as [d r'] eqn:Hd. apply digits_length in Hd.
  destruct d; intros [= <- <-]; simpl in *; lia.
Qed.

Lemma exp_part_length (s e r : string) :
  exp_part s = (e, r) -> String.length r <= String.length s.
Proof.
  unfold exp_part. destruct s as [|c s]; [intros [= <- <-]; lia |].
  destruct (Ascii.eqb c "e" || Ascii.eqb c "E")%bool; [| intros [= <- <-]; lia].
  destruct s as [|g s'].
  - simpl. intros [= <- <-]. simpl. lia.
  - destruct (Ascii.eqb g "+" || Ascii.eqb g "-")%bool.
    + destruct (digits s') as [d r'] eqn:Hd. apply digits_length in Hd.
      destruct d; intros [= <- <-]; simpl in *; lia.
    + destruct (digits (String g s')) as [d r'] eqn:Hd. apply digits_length in Hd.
      destruct d; intros [= <- <-]; simpl in *; lia.
Qed.

Lemma scan_number_length (s : string) (v : pyval) (r : string) :
  scan_number s = Some (v, r) -> String.length r < String.length s.
Proof.
  unfold scan_number.
  set (p := match s with
            | String c r0 => if Ascii.eqb c "-" then ("-", r0) else ("", s)
            | EmptyString => ("", s)
            end).
  assert (Hp : String.length (snd p) <= String.length s).
  { subst p. destruct s as [|c r0]; [simpl; lia |].
    destruct (Ascii.eqb c "-"); simpl; lia. }
  destruct p as [sign r0]. simpl in Hp.
  destruct (int_part r0) as [[i r1] |] eqn:Hi; [| discriminate].
  apply int_part_length in Hi.
  destruct (frac_part r1) as [f r2] eqn:Hf. apply frac_part_length in Hf.
  destruct (exp_part r2) as [e r3] eqn:He. apply exp_part_length in He.
  destruct f, e; intros [= <- <-]; lia.
Qed.

Lemma scan_constant_length (s : string) (v : pyval) (r : string) :
  scan_constant s = Some (v, r) -> String.length r < String.length s.
Proof.
  unfold scan_constant.
  destruct (strip "NaN" s) eqn:H1; [apply strip_length in H1; intros [= <- <-]; simpl in *; lia |].
  destruct (strip "Infinity" s) eqn:H2;
    [apply strip_length in H2; intros [= <- <-]; simpl in *; lia |].
  destruct (strip "-Infinity" s) eqn:H3;
    [apply strip_length in H3; intros [= <- <-]; simpl in *; lia | discriminate].
Qed.

Lemma after_length (c : ascii) (s r : string) :
  after c s = Some r -> String.length s = S (String.length r).
Proof.
  unfold after. destruct s as [|a s]; [discriminate |].
  destruct (Ascii.eqb a c); [now intros [= ->] | discriminate].
Qed.

Lemma scan_value_below obj obj' arr arr' :
  below2 obj obj' -> below2 arr arr' ->
  below (scan_value obj arr) (scan_value obj' arr').
Proof.
  intros Ho Ha s x. unfold scan_value.
  destruct (after dquote s); [trivial |].
  destruct (after "{" s) as [r |].
  - destruct (after "}" (skip_ws r)); [trivial | apply Ho].
  - destruct (after "[" s) as [r |]; [| trivial].
    destruct (after "]" (skip_ws r)); [trivial | apply Ha].
Qed.

Lemma object_item_below scan scan' obj obj' :
  below scan scan' -> below2 obj obj' ->
  below2 (object_item scan obj) (object_item scan' obj').
Proof.
  intros Hs Ho s acc x. unfold object_item.
  destruct (after dquote s) as [r |]; [| discriminate].
  destruct (scanstring r) as [[key r1] |]; [| discriminate].
  destruct (after ":" (skip_ws r1)) as [r2 |]; [| discriminate].
  destruct (scan (skip_ws r2)) as [[v r3] |] eqn:Hv; [| discriminate].
  rewrite (Hs _ _ Hv).
  destruct (after "}" (skip_ws r3)); [trivial |].
  destruct (after "," (skip_ws r3)); [apply Ho | discriminate].
Qed.

Lemma array_item_below scan scan' arr arr' :
  below scan scan' -> below2 arr arr' ->
  below2 (array_item scan arr) (array_item scan' arr').
Proof.
  intros Hs Ha s acc x. unfold array_item.
  destruct (scan s) as [[v r1] |] eqn:Hv; [| discriminate].
  rewrite (Hs _ _ Hv).
  destruct (after "]" (skip_ws r1)); [trivial |].
  destruct (after "," (skip_ws r1)); [apply Ha | discriminate].
Qed.

(** One more unit of fuel changes no result. *)
Lemma fuel_step (n : nat) :
  below (scan_once n) (scan_once (S n)) /\
  below2 (object_items n) (object_items (S n)) /\
  below2 (array_items n) (array_items (S n)).
Proof.
  induction n as [|n (IHs & IHo & IHa)].
  - repeat split; intros ?; intros; discriminate.
  - split; [| split].
    + apply scan_value_below; assumption.
    + apply object_item_below; assumption.
    + apply array_item_below; assumption.
Qed.

Lemma fuel_mono (n m : nat) :
  n <= m ->
  below (scan_once n) (scan_once m) /\
  below2 (object_items n) (object_items m) /\
  below2 (array_items n) (array_items m).
Proof.
  induction 1 as [|m _ (IHs & IHo & IHa)].
  - repeat split; intros ?; intros; assumption.
  - destruct (fuel_step m) as (Hs & Ho & Ha).
    split; [| split]; intros ?; intros; auto.
Qed.

(** A scanner that read something used no more fuel than the number of
    characters it consumed. *)
Lemma fuel_thrifty (n : nat) :
  (forall s v r, scan_once n s = Some (v, r) ->
     String.length r < String.length s /\
     scan_once (String.length s - String.length r) s = Some (v, r)) /\
  (forall s acc v r, object_items n s acc = Some (v, r) ->
     String.length r < String.length s /\
     object_items (String.length s - String.length r) s acc = Some (v, r)) /\
  (forall s acc v r, array_items n s acc = Some (v, r) ->
     String.length r < String.length s /\
     array_items (String.length s - String.length r) s acc = Some (v, r)).
Proof.
  induction n as [|n (IHs & IHo & IHa)]; [repeat split; discriminate |].
  split; [| split].
  - intros s v r H. cbn [scan_once] in H.
    assert (Hgoal : String.length r < String.length s ->
              (forall m, String.length s - String.length r = S m ->
                         scan_value (object_items m) (array_items m) s = Some (v, r)) ->
              String.length r < String.length s /\
              scan_once (String.length s - String.length r) s = Some (v, r)).
    { intros Hlen Hm. split; [assumption |].
      destruct (String.length s - String.length r) as [|m] eqn:E; [lia |].
      cbn [scan_once]. now apply Hm. }
    unfold scan_value in H.
    destruct (after dquote s) as [r0 |] eqn:H1.
    { destruct (scanstring r0) as [[t rest] |] eqn:E; [| discriminate].
      injection H as <- <-.
      pose proof (after_length _ _ _ H1) as LL1. pose proof (scanstring_length _ _ _ E) as LL2.
      apply Hgoal; [lia |]. intros m _. unfold scan_value. now rewrite H1, E. }
    destruct (after "{" s) as [r0 |] eqn:H2.
    { pose proof (after_length _ _ _ H2) as L2. pose proof (skip_ws_length r0) as Lw.
      destruct (after "}" (skip_ws r0)) as [rest |] eqn:E.
      - injection H as <- <-. pose proof (after_length _ _ _ E) as LL3.
        apply Hgoal; [lia |]. intros m _. unfold scan_value. now rewrite H1, H2, E.
      - destruct (IHo _ _ _ _ H) as [Hl Hf]. apply Hgoal; [lia |].
        intros m Hm. unfold scan_value. rewrite H1, H2, E.
        refine (proj1 (proj2 (fuel_mono _ m _)) _ _ _ Hf). lia. }
    destruct (after "[" s) as [r0 |] eqn:H3.
    { pose proof (after_length _ _ _ H3) as L3. pose proof (skip_ws_length r0) as Lw.
      destruct (after "]" (skip_ws r0)) as [rest |] eqn:E.
      - injection H as <- <-. pose proof (after_length _ _ _ E) as LL4.
        apply Hgoal; [lia |]. intros m _. unfold scan_value. now rewrite H1, H2, H3, E.
      - destruct (IHa _ _ _ _ H) as [Hl Hf]. apply Hgoal; [lia |].
        intros m Hm. unfold scan_value. rewrite H1, H2, H3, E.
        refine (proj2 (proj2 (fuel_mono _ m _)) _ _ _ Hf). lia. }
    assert (Hl : String.length r < String.length s).
    { destruct (strip "null" s) eqn:E1;
        [apply strip_length in E1; injection H as <- <-; simpl in E1; lia |].
      destruct (strip "true" s) eqn:E2;
        [apply strip_length in E2; injection H as <- <-; simpl in E2; lia |].
      destruct (strip "false" s) eqn:E3;
        [apply strip_length in E3; injection H as <- <-; simpl in E3; lia |].
      destruct (scan_number s) as [[v' r'] |] eqn:E4.
      - injection H as <- <-. now apply scan_number_length in E4.
      - now apply scan_constant_length in H. }
    apply Hgoal; [exact Hl |]. intros m _. unfold scan_value. rewrite H1, H2, H3. exact H.
  - intros s acc v r H. cbn [object_items] in H.
    assert (Hgoal : String.length r < String.length s ->
              (forall m, String.length s - String.length r = S m ->
                         object_item (scan_once m) (object_items m) s acc = Some (v, r)) ->
              String.length r < String.length s /\
              object_items (String.length s - String.length r) s acc = Some (v, r)).
    { intros Hlen Hm. split; [assumption |].
      destruct (String.length s - String.length r) as [|m] eqn:E; [lia |].
      cbn [object_items]. now apply Hm. }
    unfold object_item in H.
    destruct (after dquote s) as [r0 |] eqn:H1; [| discriminate].
    destruct (scanstring r0) as [[key r1] |] eqn:H2; [| discriminate].
    destruct (after ":" (skip_ws r1)) as [r2 |] eqn:H3; [| discriminate].
    destruct (scan_once n (skip_ws r2)) as [[v1 r3] |] eqn:H4; [| discriminate].
    pose proof (after_length _ _ _ H1) as LL5. pose proof (scanstring_length _ _ _ H2) as LL6.
    pose proof (after_length _ _ _ H3) as LL7.
    pose proof (skip_ws_length r1) as L1. pose proof (skip_ws_length r2) as L2.
    pose proof (skip_ws_length r3) as L3.
    destruct (IHs _ _ _ H4) as [Hl4 Hf4].
    destruct (after "}" (skip_ws r3)) as [rest |] eqn:H5.
    + injection H as <- <-. pose proof (after_length _ _ _ H5) as LL8. apply Hgoal; [lia |].
      intros m Hm. unfold object_item. rewrite H1, H2, H3.
      assert (Hv : scan_once m (skip_ws r2) = Some (v1, r3))
        by (refine (proj1 (fuel_mono _ m _) _ _ Hf4); lia).
      rewrite Hv. now rewrite H5.
    + destruct (after "," (skip_ws r3)) as [r4 |] eqn:H6; [| discriminate].
      pose proof (after_length _ _ _ H6) as LL9. pose proof (skip_ws_length r4) as L4.
      destruct (IHo _ _ _ _ H) as [Hl Hf]. apply Hgoal; [lia |].
      intros m Hm. unfold object_item. rewrite H1, H2, H3.
      assert (Hv : scan_once m (skip_ws r2) = Some (v1, r3))
        by (refine (proj1 (fuel_mono _ m _) _ _ Hf4); lia).
      rewrite Hv. rewrite H5, H6.
      refine (proj1 (proj2 (fuel_mono _ m _)) _ _ _ Hf). lia.
  - intros s acc v r H. cbn [array_items] in H.
    assert (Hgoal : String.length r < String.length s ->
              (forall m, String.length s - String.length r = S m ->
                         array_item (scan_once m) (array_items m) s acc = Some (v, r)) ->
              String.length r < String.length s /\
              array_items (String.length s - String.length r) s acc = Some (v, r)).
    { intros Hlen Hm. split; [assumption |].
      destruct (String.length s - String.length r) as [|m] eqn:E; [lia |].
      cbn [array_items]. now apply Hm. }
    unfold array_item in H.
    destruct (scan_once n s) as [[v1 r1] |] eqn:H1; [| discriminate].
    destruct (IHs _ _ _ H1) as [Hl1 Hf1].
    pose proof (skip_ws_length r1) as L1.
    destruct (after "]" (skip_ws r1)) as [rest |] eqn:H2.
    + injection H as <- <-. pose proof (after_length _ _ _ H2) as LL10. apply Hgoal; [lia |].
      intros m Hm. unfold array_item.
      assert (Hv : scan_once m s = Some (v1, r1))
        by (refine (proj1 (fuel_mono _ m _) _ _ Hf1); lia).
      rewrite Hv. now rewrite H2.
    + destruct (after "," (skip_ws r1)) as [r2 |] eqn:H3; [| discriminate].
      pose proof (after_length _ _ _ H3) as LL11. pose proof (skip_ws_length r2) as L2.
      destruct (IHa _ _ _ _ H) as [Hl Hf]. apply Hgoal; [lia |].
      intros m Hm. unfold array_item.
      assert (Hv : scan_once m s = Some (v1, r1))
        by (refine (proj1 (fuel_mono _ m _) _ _ Hf1); lia).
      rewrite Hv. rewrite H2, H3.
      refine (proj2 (proj2 (fuel_mono _ m _)) _ _ _ Hf). lia.
Qed.

(** Fuel equal to the length of the text is as good as any. *)
Lemma scan_once_adequate (n m : nat) (s : string) (v : pyval) (r : string) :
  scan_once n s = Some (v, r) -> String.length s <= m -> scan_once m s = Some (v, r).
Proof.
  intros H Hm. destruct (proj1 (fuel_thrifty n) _ _ _ H) as [Hl Hf].
  refine (proj1 (fuel_mono _ m _) _ _ Hf). lia.
Qed.

(** [loads] fails only on a text that no amount of fuel reads as one
    JSON value. *)
Lemma loads_adequate (fuel : nat) (s : string) (v : pyval) (rest : string) :
  scan_once fuel (skip_ws s) = Some (v, rest) -> skip_ws rest = EmptyString ->
  loads s = Some v.
Proof.
  intros H Hrest. unfold loads.
  rewrite (scan_once_adequate fuel (S (String.length s)) _ _ _ H).
  - now rewrite Hrest.
  - pose proof (skip_ws_length s). lia.
Qed.

End JsonFuel.

(** ** ThreatAnalyzer *)

Section AnalyzerFacts.

Import Analyzer.

(** [is_dangerous] is a case-insensitive substring match against the
    keywords. *)
Lemma is_dangerous_spec (obj : Detection) :
  is_dangerous obj = true <->
  exists kw pre post, In kw keywords /\ lower (class_name obj) = pre ++ kw ++ post.
Proof.
  unfold is_dangerous, keywords. rewrite !orb_true_iff, !contains_spec. split.
  - intros [[[H | H] | H] | H]; destruct H as [pre [post H]];
      eexists _, pre, post; (split; [ | exact H]); simpl; tauto.
  - intros [kw [pre [post [Hin H]]]]. simpl in Hin.
    destruct Hin as [<- | [<- | [<- | [<- | []]]]]; [left; left; left | left; left; right | left; right | right];
      now exists pre, post.
Qed.

Lemma detected_keywords_length (objs : list Detection) :
  length (detected_keywords objs) = length (filter is_dangerous objs).
Proof. unfold detected_keywords. apply length_map. Qed.

Lemma detected_keywords_nil (objs : list Detection) :
  detected_keywords objs = [] <-> filter is_dangerous objs = [].
Proof.
  unfold detected_keywords. destruct (filter is_dangerous objs); simpl; split; congruence.
Qed.

(** The fallback report when something matched. *)
Lemma fallback_report_high (objs : list Detection) :
  filter is_dangerous objs <> [] ->
  let pct := Z.min 100 (20 * Z.of_nat (length (filter is_dangerous objs))) in
  field "threat_level" (fallback_report objs) = Some (PStr "high") /\
  field "threat_percentage" (fallback_report objs) = Some (PInt pct) /\
  field "risk_breakdown" (fallback_report objs)
    = Some (PDict [("high", PInt pct); ("medium", PInt (100 - pct)); ("low", PInt 0)]) /\
  field "detected_keywords" (fallback_report objs)
    = Some (PList (map PStr (detected_keywords objs))).
Proof.
  intros Hne pct. unfold fallback_report.
  pose proof (detected_keywords_length objs) as Hlen.
  destruct (detected_keywords objs) as [|k ks] eqn:Hk.
  - apply detected_keywords_nil in Hk. contradiction.
  - subst pct. rewrite <- Hlen, (Z.mul_comm 20). repeat split; reflexivity.
Qed.

(** The fallback report when nothing matched. *)
Lemma fallback_report_low (objs : list Detection) :
  filter is_dangerous objs = [] ->
  field "threat_level" (fallback_report objs) = Some (PStr "low") /\
  field "threat_percentage" (fallback_report objs) = Some (PInt 0) /\
  field "risk_breakdown" (fallback_report objs)
    = Some (PDict [("high", PInt 0); ("medium", PInt 0); ("low", PInt 100)]) /\
  field "detected_keywords" (fallback_report objs) = Some (PList []).
Proof.
  intros Hnil. apply detected_keywords_nil in Hnil.
  unfold fallback_report. rewrite Hnil. repeat split; reflexivity.
Qed.

(** When the body of the [try] raises, the report is the fallback's. *)
Lemma analyze_on_failure (env : Env) (objs : list Detection) t e :
  objs <> [] ->
  groq_analysis env (prompt objs) = (t, inl e) ->
  analyze_threat_with_groq env (Some objs) = ((t ++ [Printed e])%list, fallback_report objs).
Proof.
  intros Hne H. destruct objs as [|o objs]; [congruence |].
  unfold analyze_threat_with_groq. now rewrite H.
Qed.

(** When the body of the [try] returns, the report is what it returned. *)
Lemma analyze_on_success (env : Env) (objs : list Detection) t j :
  objs <> [] ->
  groq_analysis env (prompt objs) = (t, inr j) ->
  analyze_threat_with_groq env (Some objs) = (t, j).
Proof.
  intros Hne H. destruct objs as [|o objs]; [congruence |].
  unfold analyze_threat_with_groq. now rewrite H.
Qed.

End AnalyzerFacts.

(** C1. On a non-empty detection sequence for which the external reasoning
    call fails, the report is the fallback's: the matched detections are
    those whose class name contains, whatever the case of its letters, one
    of weapon, knife, gun, scissors; if some detection matched, the level is
    high, the percentage is min(100, 20 x the number of matched detections)
    and the breakdown is high: pct, medium: 100 - pct, low: 0; if none
    matched, the level is low and the percentage 0. One knife gives high,
    20 and the keywords [knife]; two matching detections give 40 and the
    breakdown 40, 60, 0. *)
Theorem fallback_heuristic_on_failure :
  forall (env : Env) (objs : list Detection) t e,
    objs <> [] ->
    Analyzer.groq_analysis env (Analyzer.prompt objs) = (t, inl e) ->
    let report := snd (Analyzer.analyze_threat_with_groq env (Some objs)) in
    let matched := filter Analyzer.is_dangerous objs in
    let pct := Z.min 100 (20 * Z.of_nat (length matched)) in
    (forall obj, In obj matched <->
       In obj objs /\
       exists kw pre post, In kw keywords /\ lower (class_name obj) = pre ++ kw ++ post) /\
    field "detected_keywords" report = Some (PList (map (fun obj => PStr (class_name obj)) matched)) /\
    (matched <> [] ->
       field "threat_level" report = Some (PStr "high") /\
       field "threat_percentage" report = Some (PInt pct) /\
       field "risk_breakdown" report
         = Some (PDict [("high", PInt pct); ("medium", PInt (100 - pct)); ("low", PInt 0)])) /\
    (matched = [] ->
       field "threat_level" report = Some (PStr "low") /\
       field "threat_percentage" report = Some (PInt 0)) /\
    (forall c, objs = [{| class_name := "knife"; confidence := c |}] ->
       field "threat_level" report = Some (PStr "high") /\
       field "threat_percentage" report = Some (PInt 20) /\
       field "detected_keywords" report = Some (PList [PStr "knife"])) /\
    (forall a b, objs = [a; b] ->
       Analyzer.is_dangerous a = true -> Analyzer.is_dangerous b = true ->
       field "threat_percentage" report = Some (PInt 40) /\
       field "risk_breakdown" report
         = Some (PDict [("high", PInt 40); ("medium", PInt 60); ("low", PInt 0)])).
Proof.
  intros env objs t e Hne Hfail report matched pct.
  assert (Hrep : report = Analyzer.fallback_report objs).
  { subst report. now rewrite (analyze_on_failure env objs t e Hne Hfail). }
  assert (Hkw : field "detected_keywords" report
                = Some (PList (map (fun obj => PStr (class_name obj)) matched))).
  { rewrite Hrep.
    assert (Hdec : matched = [] \/ matched <> [])
      by (destruct matched; [left | right]; congruence).
    destruct Hdec as [Hnil | Hnn].
    - destruct (fallback_report_low objs Hnil) as (_ & _ & _ & ->).
      subst matched. now rewrite Hnil.
    - destruct (fallback_report_high objs Hnn) as (_ & _ & _ & ->).
      unfold Analyzer.detected_keywords. now rewrite map_map. }
  split; [| split; [exact Hkw | split; [| split; [| split]]]].
  - intros obj. subst matched. rewrite filter_In, is_dangerous_spec. tauto.
  - intros Hnn. rewrite Hrep.
    destruct (fallback_report_high objs Hnn) as (H1 & H2 & H3 & _). auto.
  - intros Hnil. rewrite Hrep.
    destruct (fallback_report_low objs Hnil) as (H1 & H2 & _). auto.
  - intros c Hobjs. rewrite Hkw. subst matched. rewrite Hrep, Hobjs. repeat split; reflexivity.
  - intros a b Hobjs Ha Hb.
    assert (Hm : filter Analyzer.is_dangerous objs = [a; b]).
    { rewrite Hobjs. simpl. now rewrite Ha, Hb. }
    assert (Hnn : filter Analyzer.is_dangerous objs <> []) by (rewrite Hm; discriminate).
    rewrite Hrep. destruct (fallback_report_high objs Hnn) as (_ & H2 & H3 & _).
    rewrite Hm in H2, H3. simpl in H2, H3. auto.
Qed.

(** C1 at one knife, with no credential in the environment. *)
Lemma fallback_heuristic_on_failure_witness :
  [Scenarios.knife] <> [] /\
  Analyzer.groq_analysis Scenarios.no_key (Analyzer.prompt [Scenarios.knife])
    = ([], inl (ValueError "GROQ_API_KEY environment variable not set")) /\
  field "threat_level"
    (snd (Analyzer.analyze_threat_with_groq Scenarios.no_key (Some [Scenarios.knife])))
    = Some (PStr "high") /\
  field "threat_percentage"
    (snd (Analyzer.analyze_threat_with_groq Scenarios.no_key (Some [Scenarios.knife])))
    = Some (PInt 20) /\
  field "detected_keywords"
    (snd (Analyzer.analyze_threat_with_groq Scenarios.no_key (Some [Scenarios.knife])))
    = Some (PList [PStr "knife"]).
Proof.
  assert (Hne : [Scenarios.knife] <> []) by discriminate.
  assert (Hfail : Analyzer.groq_analysis Scenarios.no_key (Analyzer.prompt [Scenarios.knife])
                  = ([], inl (ValueError "GROQ_API_KEY environment variable not set")))
    by reflexivity.
  split; [exact Hne | split; [exact Hfail |]].
  destruct (fallback_heuristic_on_failure Scenarios.no_key [Scenarios.knife] [] _ Hne Hfail)
    as (_ & _ & _ & _ & Hknife & _).
  exact (Hknife (9 # 10) eq_refl).
Defined.

Section ReplyFacts.

Import Analyzer.

Lemma groq_analysis_no_credential (env : Env) (p : string) :
  credential env = None ->
  groq_analysis env p = ([], inl (ValueError "GROQ_API_KEY environment variable not set")).
Proof.
  unfold credential, groq_analysis. destruct (GROQ_API_KEY env) as [[|c r]|]; [reflexivity | discriminate | reflexivity].
Qed.

Lemma groq_analysis_post_raises (env : Env) (p key : string) (e : Exn) :
  credential env = Some key ->
  requests_post env (groq_request key p) = inl e ->
  groq_analysis env p = ([Posted (groq_request key p)], inl e).
Proof.
  unfold credential, groq_analysis. destruct (GROQ_API_KEY env) as [[|c r]|]; try discriminate.
  intros [= <-] H. unfold post, bind, emit, lift. now rewrite H.
Qed.

Lemma groq_analysis_bad_status (env : Env) (p key : string) (response : Response) :
  credential env = Some key ->
  requests_post env (groq_request key p) = inr response ->
  status_code response <> 200 ->
  groq_analysis env p =
    ([Posted (groq_request key p)],
     inl (ValueError ("API request failed with status code "
                        ++ str_of_Z (status_code response) ++ ": " ++ text response))).
Proof.
  unfold credential, groq_analysis. destruct (GROQ_API_KEY env) as [[|c r]|]; try discriminate.
  intros [= <-] H Hst. unfold post, bind, emit, lift, raise. rewrite H.
  apply Z.eqb_neq in Hst. now rewrite Hst.
Qed.

Lemma groq_analysis_status_200 (env : Env) (p key : string) (response : Response) :
  credential env = Some key ->
  requests_post env (groq_request key p) = inr response ->
  status_code response = 200 ->
  groq_analysis env p = ([Posted (groq_request key p)], reply_analysis response).
Proof.
  unfold credential, groq_analysis. destruct (GROQ_API_KEY env) as [[|c r]|]; try discriminate.
  intros [= <-] H Hst. unfold post, bind, emit, lift, raise, ret. rewrite H.
  apply Z.eqb_eq in Hst. rewrite Hst. unfold reply_analysis.
  destruct (response_json response) as [e | response_data]; [reflexivity |].
  destruct (message_content response_data) as [e | analysis_text]; [reflexivity |].
  destruct (re_search analysis_text) as [e | [matched |]]; [reflexivity | | reflexivity].
  destruct (json_loads matched); reflexivity.
Qed.

(** The body of the [try] sends at most one request, and nothing else. *)
Lemma groq_analysis_trace (env : Env) (p : string) :
  fst (groq_analysis env p) = [] \/
  exists key, credential env = Some key /\ fst (groq_analysis env p) = [Posted (groq_request key p)].
Proof.
  destruct (credential env) as [key |] eqn:Hk.
  - right. exists key. split; [reflexivity |].
    destruct (requests_post env (groq_request key p)) as [e | response] eqn:Hp.
    + now rewrite (groq_analysis_post_raises env p key e Hk Hp).
    + destruct (Z.eq_dec (status_code response) 200) as [Hst | Hst].
      * now rewrite (groq_analysis_status_200 env p key response Hk Hp Hst).
      * now rewrite (groq_analysis_bad_status env p key response Hk Hp Hst).
  - left. now rewrite (groq_analysis_no_credential env p Hk).
Qed.

(** The items of an object are read into a dict. *)
Lemma object_items_dict (fuel : nat) :
  forall s acc v rest, Json.object_items fuel s acc = Some (v, rest) -> exists d, v = PDict d.
Proof.
  induction fuel as [|k IH]; intros s acc v rest H; [discriminate |].
  cbn [Json.object_items] in H. unfold Json.object_item in H.
  destruct (Json.after dquote s) as [r |]; [| discriminate].
  destruct (Json.scanstring r) as [[key r1] |]; [| discriminate].
  destruct (Json.after ":" (Json.skip_ws r1)) as [r2 |]; [| discriminate].
  destruct (Json.scan_once k (Json.skip_ws r2)) as [[v1 r3] |]; [| discriminate].
  destruct (Json.after "}" (Json.skip_ws r3)) as [r4 |].
  - injection H as <- _. eauto.
  - destruct (Json.after "," (Json.skip_ws r3)) as [r4 |]; [| discriminate].
    eapply IH; eassumption.
Qed.

(** A value that starts with an opening brace is read as a dict, or not
    at all. *)
Lemma scan_once_brace_dict (fuel : nat) (r : string) (v : pyval) (rest : string) :
  Json.scan_once fuel (String "{" r) = Some (v, rest) -> exists d, v = PDict d.
Proof.
  destruct fuel as [|k]; [discriminate |].
  cbn [Json.scan_once]. unfold Json.scan_value.
  change (Json.after dquote (String "{" r)) with (@None string).
  change (Json.after "{" (String "{" r)) with (Some r). cbv iota.
  destruct (Json.after "}" (Json.skip_ws r)) as [r1 |].
  - intros [= <- _]. eauto.
  - apply object_items_dict.
Qed.

Lemma loads_brace_dict (r : string) (v : pyval) :
    Json.loads (String "{" r) = Some v -> exists d, v = PDict d.
Proof.
    unfold Json.loads.
    change (Json.skip_ws (String "{" r)) with (String "{" r).
    destruct (Json.scan_once _ _) as [[v' rest] |] eqn:Hs; [| discriminate].
    intros H. destruct (Json.skip_ws rest); [| discriminate]. injection H as ->.
    eapply scan_once_brace_dict; eassumption.
Qed.

End ReplyFacts.

Section BraceSpan.

Import Analyzer.

Lemma from_first_open_sound (s t : string) :
  from_first_open s = Some t ->
  exists pre r, s = pre ++ t /\ t = String "{" r /\ ~ occurs "{" pre.
Proof.
  induction s as [|c s IH]; simpl; [discriminate |].
  destruct (Ascii.eqb_spec c "{") as [-> | Hc].
  - intros [= <-]. exists "", s. simpl. tauto.
  - intros H. destruct (IH H) as (pre & r & -> & -> & Hno).
    exists (String c pre), r. simpl. tauto.
Qed.

Lemma from_first_open_complete (pre r : string) :
  ~ occurs "{" pre -> from_first_open (pre ++ String "{" r) = Some (String "{" r).
Proof.
  induction pre as [|a pre IH]; simpl; intros Hno; [reflexivity |].
  destruct (Ascii.eqb_spec a "{") as [-> | _]; [tauto |]. apply IH. tauto.
Qed.

Lemma from_first_open_none (s : string) :
  from_first_open s = None <-> ~ occurs "{" s.
Proof.
  induction s as [|c s IH]; simpl; [tauto |].
  destruct (Ascii.eqb_spec c "{") as [-> | Hc].
  - split; [discriminate | tauto].
  - rewrite IH. tauto.
Qed.

Lemma upto_last_close_none (s : string) :
    upto_last_close s = None <-> ~ occurs "}" s.
Proof.
    induction s as [|c s IH]; simpl; [tauto |].
    destruct (upto_last_close s) as [u |].
    - split; [discriminate |]. intros H. exfalso.
      assert (Hu : Some u = None) by (apply IH; tauto). discriminate.
    - destruct (Ascii.eqb_spec c "}") as [-> | Hc].
      + split; [discriminate | tauto].
      + split; [| reflexivity]. intros _ [H | H]; [congruence |].
        now apply (proj1 IH eq_refl).
Qed.

Lemma upto_last_close_sound (s t : string) :
    upto_last_close s = Some t ->
    exists mid post, t = mid ++ "}" /\ s = t ++ post /\ ~ occurs "}" post.
Proof.
    revert t; induction s as [|c s IH]; intros t; simpl; [discriminate |].
    destruct (upto_last_close s) as [u |] eqn:Hu.
    - intros [= <-]. destruct (IH u eq_refl) as (mid & post & -> & Hs & Hno).
      exists (String c mid), post. simpl. rewrite Hs at 1. tauto.
    - destruct (Ascii.eqb_spec c "}") as [-> | Hc]; [| discriminate].
      intros [= <-]. exists "", s. simpl. apply upto_last_close_none in Hu. tauto.
Qed.

Lemma upto_last_close_complete (mid post : string) :
    ~ occurs "}" post ->
    upto_last_close ((mid ++ "}") ++ post) = Some (mid ++ "}").
Proof.
    intros Hno. induction mid as [|a mid IH]; simpl.
    - apply upto_last_close_none in Hno. now rewrite Hno.
    - now rewrite IH.
Qed.

(** The span [re.search] returns: it starts at the first opening brace of
      the text and ends at its last closing brace. *)
Lemma search_braces_spec (s span : string) :
    search_braces s = Some span <->
    exists pre mid post,
      s = pre ++ span ++ post /\ span = String "{" (mid ++ "}") /\
      ~ occurs "{" pre /\ ~ occurs "}" post.
Proof.
    unfold search_braces. split.
    - destruct (from_first_open s) as [t |] eqn:Hf; [| discriminate].
      destruct (from_first_open_sound s t Hf) as (pre & r & -> & -> & Hno).
      destruct (upto_last_close r) as [u |] eqn:Hu; [| discriminate].
      intros [= <-].
      destruct (upto_last_close_sound r u Hu) as (mid & post & -> & -> & Hno').
      exists pre, mid, post. simpl. tauto.
    - intros (pre & mid & post & -> & -> & Hno & Hno').
      simpl. rewrite (from_first_open_complete pre _ Hno).
      now rewrite (upto_last_close_complete mid post Hno').
Qed.

(** There is no span when no closing brace follows the first opening
      brace. *)
Lemma search_braces_none (s : string) :
    search_braces s = None <->
    ~ occurs "{" s \/ exists pre r, s = pre ++ String "{" r /\ ~ occurs "{" pre /\ ~ occurs "}" r.
Proof.
    unfold search_braces. split.
    - destruct (from_first_open s) as [t |] eqn:Hf.
      + destruct (from_first_open_sound s t Hf) as (pre & r & -> & -> & Hno).
        destruct (upto_last_close r) as [u |] eqn:Hu; [discriminate |].
        intros _. right. exists pre, r. apply upto_last_close_none in Hu. tauto.
      + intros _. left. now apply from_first_open_none.
    - intros [Hno | (pre & r & -> & Hno & Hno')].
      + apply from_first_open_none in Hno. now rewrite Hno.
      + rewrite (from_first_open_complete pre r Hno).
        apply upto_last_close_none in Hno'. now rewrite Hno'.
Qed.

(** A span that is read as JSON is a dict. *)
Lemma span_loads_dict (s span : string) (j : pyval) :
    search_braces s = Some span -> Json.loads span = Some j -> exists d, j = PDict d.
Proof.
    intros Hs Hj. apply search_braces_spec in Hs.
    destruct Hs as (pre & mid & post & _ & -> & _). eapply loads_brace_dict; eassumption.
Qed.

End BraceSpan.

Section AnalyzerClaims.

Import Analyzer.

Lemma empty_report_fields : has_all_fields empty_report = true.
Proof. reflexivity. Qed.

Lemma fallback_report_fields (objs : list Detection) :
  has_all_fields (fallback_report objs) = true.
Proof. unfold fallback_report. destruct (detected_keywords objs); reflexivity. Qed.

(** The percentage of the fallback lies between 0 and 100 and its
    breakdown sums to 100. *)
Lemma fallback_report_percentages (objs : list Detection) :
  exists pct high medium low,
    field "threat_percentage" (fallback_report objs) = Some (PInt pct) /\
    field "risk_breakdown" (fallback_report objs)
      = Some (PDict [("high", PInt high); ("medium", PInt medium); ("low", PInt low)]) /\
    0 <= pct <= 100 /\ 0 <= high /\ 0 <= medium /\ 0 <= low /\ high + medium + low = 100.
Proof.
  unfold fallback_report. destruct (detected_keywords objs) as [|k ks].
  - exists 0, 0, 0, 100. repeat split; lia.
  - set (pct := Z.min 100 (Z.of_nat (length (k :: ks)) * 20)).
    exists pct, pct, (100 - pct), 0. subst pct. repeat split; lia.
Qed.

(** The two ways out of [analyze_threat_with_groq] on a non-empty
    sequence. *)
Lemma analyze_sources (env : Env) (objs : list Detection) :
  objs <> [] ->
  (exists t j d,
      groq_analysis env (prompt objs) = (t, inr j) /\ j = PDict d /\
      analyze_threat_with_groq env (Some objs) = (t, j))
  \/
  (exists t e,
      groq_analysis env (prompt objs) = (t, inl e) /\
      analyze_threat_with_groq env (Some objs) = ((t ++ [Printed e])%list, fallback_report objs)).
Proof.
  intros Hne. destruct (groq_analysis env (prompt objs)) as [t [e | j]] eqn:Hg.
  - right. exists t, e. split; [reflexivity |]. now apply analyze_on_failure.
  - left. assert (Hd : exists d, j = PDict d).
    { destruct (credential env) as [key |] eqn:Hk.
      - destruct (requests_post env (groq_request key (prompt objs))) as [e | response] eqn:Hp.
        + rewrite (groq_analysis_post_raises env _ key e Hk Hp) in Hg. discriminate.
        + destruct (Z.eq_dec (status_code response) 200) as [Hst | Hst].
          * rewrite (groq_analysis_status_200 env _ key response Hk Hp Hst) in Hg.
            injection Hg as _ Hr. unfold reply_analysis in Hr.
            destruct (response_json response) as [e | response_data]; [discriminate |].
            destruct (message_content response_data) as [e | analysis_text]; [discriminate |].
            destruct analysis_text as [| | | | s | |]; try discriminate. simpl in Hr.
            destruct (search_braces s) as [span |] eqn:Hs; [| discriminate].
            unfold json_loads in Hr. destruct (Json.loads span) as [v |] eqn:Hv; [| discriminate].
            injection Hr as <-. eapply span_loads_dict; eassumption.
          * rewrite (groq_analysis_bad_status env _ key response Hk Hp Hst) in Hg. discriminate.
      - rewrite (groq_analysis_no_credential env _ Hk) in Hg. discriminate. }
    destruct Hd as [d Hd]. exists t, j, d. repeat split; [assumption |]. now apply analyze_on_success.
Qed.

End AnalyzerClaims.

(** C3. On the empty accumulated sequence the analyzer, and [stop_stream]
    with it, returns the report with level low, percentage 0 and breakdown
    high 0, medium 0, low 100, and nothing is sent to the reasoning service:
    the trace of the call is empty. *)
Theorem empty_session_report :
  forall (env : Env) (s : Controller.Session),
    Analyzer.analyze_threat_with_groq env (Some []) = ([], Analyzer.empty_report) /\
    Controller.stop_stream env {| Controller.accumulated_objects := Some [] |} s
      = ([], Controller.set_streaming false s,
         PDict [("message", PStr "Streaming stopped"); ("analysis", Analyzer.empty_report)]) /\
    field "threat_level" Analyzer.empty_report = Some (PStr "low") /\
    field "threat_percentage" Analyzer.empty_report = Some (PInt 0) /\
    field "risk_breakdown" Analyzer.empty_report
      = Some (PDict [("high", PInt 0); ("medium", PInt 0); ("low", PInt 100)]).
Proof. intros env s. repeat split; reflexivity. Qed.

(** C10. A stop request whose body leaves out [accumulated_objects] is
    given the empty list, so [stop_stream] returns the report of the empty
    session (low, 0, breakdown 0, 0, 100) and sends nothing to the reasoning
    service. *)
Theorem omitted_field_defaults_to_empty :
  forall (env : Env) (s : Controller.Session),
    Controller.accumulated_objects (Controller.parse_request Controller.Omitted) = Some [] /\
    exists report,
      Controller.stop_stream env (Controller.parse_request Controller.Omitted) s
        = ([], Controller.set_streaming false s,
           PDict [("message", PStr "Streaming stopped"); ("analysis", report)]) /\
      field "threat_level" report = Some (PStr "low") /\
      field "threat_percentage" report = Some (PInt 0) /\
      field "risk_breakdown" report
        = Some (PDict [("high", PInt 0); ("medium", PInt 0); ("low", PInt 100)]).
Proof.
  intros env s. split; [reflexivity |].
  exists Analyzer.empty_report. repeat split; reflexivity.
Qed.

(** The report made of a reply with status 200. *)
Lemma report_of_reply (env : Env) (objs : list Detection) (key : string) (response : Response) :
  objs <> [] ->
  credential env = Some key ->
  requests_post env (Analyzer.groq_request key (Analyzer.prompt objs)) = inr response ->
  status_code response = 200 ->
  let report := snd (Analyzer.analyze_threat_with_groq env (Some objs)) in
  match Json.loads (text response) with
  | None => report = Analyzer.fallback_report objs
  | Some response_data =>
      match Analyzer.message_content response_data with
      | inr (PStr content) =>
          match Analyzer.search_braces content with
          | None => report = Analyzer.fallback_report objs
          | Some span =>
              match Json.loads span with
              | None => report = Analyzer.fallback_report objs
              | Some j => report = j
              end
          end
      | _ => report = Analyzer.fallback_report objs
      end
  end.
Proof.
  intros Hne Hk Hp Hst report.
  assert (Hfail : forall e, reply_analysis response = inl e ->
                    report = Analyzer.fallback_report objs).
  { intros e He. pose proof (groq_analysis_status_200 env _ key response Hk Hp Hst) as Hg.
    rewrite He in Hg. subst report. now rewrite (analyze_on_failure env objs _ e Hne Hg). }
  assert (Hsucc : forall j, reply_analysis response = inr j -> report = j).
  { intros j Hj. pose proof (groq_analysis_status_200 env _ key response Hk Hp Hst) as Hg.
    rewrite Hj in Hg. subst report. now rewrite (analyze_on_success env objs _ j Hne Hg). }
  unfold reply_analysis, Analyzer.response_json in Hfail, Hsucc.
  destruct (Json.loads (text response)) as [response_data |]; [| now eapply Hfail].
  destruct (Analyzer.message_content response_data) as [e | analysis_text]; [now eapply Hfail |].
  destruct analysis_text as [| | | | content | |]; try (now eapply Hfail).
  cbn [Analyzer.re_search] in Hfail, Hsucc.
  destruct (Analyzer.search_braces content) as [span |]; [| now eapply Hfail].
  unfold Analyzer.json_loads in Hfail, Hsucc.
  destruct (Json.loads span) as [j |]; [now apply Hsucc | now eapply Hfail].
Qed.

(** C2, as the code has it. Every failure of the external call is absorbed
    by the fallback: without a credential, when the request raises, on a
    status other than 200, and when the body, the message content or the
    span between braces is missing or is not JSON, the report is the
    fallback's, which has the seven fields. One source is used per call,
    the parsed reply or the fallback, after at most one request. A reply
    that parses is a dict and is returned unchanged: its fields are not
    checked. *)
Theorem failures_absorbed_by_fallback :
  forall (env : Env) (accumulated_objects : option (list Detection)),
    let t := fst (Analyzer.analyze_threat_with_groq env accumulated_objects) in
    let report := snd (Analyzer.analyze_threat_with_groq env accumulated_objects) in
    (length (filter Analyzer.is_post t) <= 1)%nat /\
    match accumulated_objects with
    | None | Some [] =>
        t = [] /\ report = Analyzer.empty_report /\ Analyzer.has_all_fields report = true
    | Some objs =>
        let p := Analyzer.prompt objs in
        ((exists j d,
             snd (Analyzer.groq_analysis env p) = inr j /\
             report = j /\ j = PDict d /\ forall e, ~ In (Printed e) t)
         \/
         (exists e,
             snd (Analyzer.groq_analysis env p) = inl e /\
             report = Analyzer.fallback_report objs /\
             Analyzer.has_all_fields report = true /\ In (Printed e) t)) /\
        (credential env = None -> report = Analyzer.fallback_report objs) /\
        (forall key, credential env = Some key ->
           match requests_post env (Analyzer.groq_request key p) with
           | inl _ => report = Analyzer.fallback_report objs
           | inr response =>
               (status_code response <> 200 -> report = Analyzer.fallback_report objs) /\
               (status_code response = 200 ->
                  match Json.loads (text response) with
                  | None => report = Analyzer.fallback_report objs
                  | Some response_data =>
                      match Analyzer.message_content response_data with
                      | inr (PStr content) =>
                          match Analyzer.search_braces content with
                          | None => report = Analyzer.fallback_report objs
                          | Some span =>
                              match Json.loads span with
                              | None => report = Analyzer.fallback_report objs
                              | Some j => report = j
                              end
                          end
                      | _ => report = Analyzer.fallback_report objs
                      end
                  end)
           end)
    end.
Proof.
  intros env accumulated_objects t report.
  assert (Hempty : forall o, (o = None \/ o = Some []) ->
            let t := fst (Analyzer.analyze_threat_with_groq env o) in
            let report := snd (Analyzer.analyze_threat_with_groq env o) in
            (length (filter Analyzer.is_post t) <= 1)%nat /\
            t = [] /\ report = Analyzer.empty_report /\ Analyzer.has_all_fields report = true).
  { intros o [-> | ->]; cbn; repeat split; lia. }
  destruct accumulated_objects as [[|o objs] |];
    [destruct (Hempty (Some [])) as (H1 & H2); [now right | split; assumption]
    | | destruct (Hempty None) as (H1 & H2); [now left | split; assumption]].
  set (l := o :: objs) in *. assert (Hne : l <> []) by discriminate.
  set (p := Analyzer.prompt l).
  assert (Hfail : forall t' e, Analyzer.groq_analysis env p = (t', inl e) ->
                    report = Analyzer.fallback_report l).
  { intros t' e H. subst report. now rewrite (analyze_on_failure env l t' e Hne H). }
  assert (Hsucc : forall t' j, Analyzer.groq_analysis env p = (t', inr j) -> report = j).
  { intros t' j H. subst report. now rewrite (analyze_on_success env l t' j Hne H). }
  split; [| split; [| split]].
  - destruct (analyze_sources env l Hne) as [(t' & j & d & Hg & _ & Ha) | (t' & e & Hg & Ha)];
      subst t; rewrite Ha; cbn [fst];
      destruct (groq_analysis_trace env p) as [Ht | (key & _ & Ht)];
      fold p in Hg; rewrite Hg in Ht; cbn [fst] in Ht; subst t'; cbn; lia.
  - destruct (analyze_sources env l Hne) as [(t' & j & d & Hg & Hd & Ha) | (t' & e & Hg & Ha)];
      fold p in Hg.
    + left. exists j, d. rewrite Hg. repeat split; [now apply (Hsucc t') | assumption |].
      intros e Hin. subst t. rewrite Ha in Hin. cbn [fst] in Hin.
      destruct (groq_analysis_trace env p) as [Ht | (key & _ & Ht)];
        rewrite Hg in Ht; cbn [fst] in Ht; subst t'; cbn in Hin; intuition discriminate.
    + right. exists e. rewrite Hg. rewrite (Hfail t' e Hg).
      repeat split; [apply fallback_report_fields |].
      subst t. rewrite Ha. cbn [fst]. apply in_or_app. right. now left.
  - intros Hk. eapply Hfail. apply groq_analysis_no_credential. assumption.
  - intros key Hk.
    destruct (requests_post env (Analyzer.groq_request key p)) as [e | response] eqn:Hp.
    + eapply Hfail. apply (groq_analysis_post_raises env p key e Hk Hp).
    + split.
      * intros Hst. eapply Hfail. apply (groq_analysis_bad_status env p key response Hk Hp Hst).
      * intros Hst. exact (report_of_reply env l key response Hne Hk Hp Hst).
Qed.

(** C2, as stated, fails: a reply with status 200 whose content is the
    empty JSON object is returned as the report, and it has none of the
    seven fields. *)
Lemma parsed_reply_lacks_fields :
  snd (Analyzer.analyze_threat_with_groq Scenarios.empty_object_reply (Some [Scenarios.cup]))
    = PDict [] /\
  Analyzer.has_all_fields
    (snd (Analyzer.analyze_threat_with_groq Scenarios.empty_object_reply (Some [Scenarios.cup])))
    = false /\
  ~ (forall env objs,
       Analyzer.has_all_fields (snd (Analyzer.analyze_threat_with_groq env objs)) = true).
Proof.
  assert (H : snd (Analyzer.analyze_threat_with_groq Scenarios.empty_object_reply
                     (Some [Scenarios.cup])) = PDict []) by (vm_compute; reflexivity).
  split; [exact H | split].
  - rewrite H. reflexivity.
  - intros Hall. specialize (Hall Scenarios.empty_object_reply (Some [Scenarios.cup])).
    rewrite H in Hall. discriminate.
Qed.

(** C9, as the code has it. The analyzer takes of the response text the
    span from its first opening brace to its last closing brace. When that
    span is well-formed JSON the analyzer returns the dict read from it;
    when it is not, or when no closing brace follows the first opening
    brace, the fallback is triggered. In particular the fallback is
    triggered when the text holds no well-formed JSON object. *)
Theorem brace_span_parsed_or_fallback :
  forall (env : Env) (objs : list Detection) (key : string)
         (response : Response) (response_data : pyval) (content : string),
    objs <> [] ->
    credential env = Some key ->
    requests_post env (Analyzer.groq_request key (Analyzer.prompt objs)) = inr response ->
    status_code response = 200 ->
    Json.loads (text response) = Some response_data ->
    Analyzer.message_content response_data = inr (PStr content) ->
    let report := snd (Analyzer.analyze_threat_with_groq env (Some objs)) in
    (forall span,
        Analyzer.search_braces content = Some span ->
        (exists pre mid post,
            content = pre ++ span ++ post /\ span = String "{" (mid ++ "}") /\
            ~ occurs "{" pre /\ ~ occurs "}" post) /\
        (forall j, Json.loads span = Some j -> report = j /\ exists d, j = PDict d) /\
        (Json.loads span = None -> report = Analyzer.fallback_report objs)) /\
    (Analyzer.search_braces content = None -> report = Analyzer.fallback_report objs) /\
    ((forall pre o post d, content = pre ++ o ++ post -> Json.loads o <> Some (PDict d)) ->
     report = Analyzer.fallback_report objs).
Proof.
  intros env objs key response response_data content Hne Hk Hp Hst Hbody Hcontent report.
  pose proof (report_of_reply env objs key response Hne Hk Hp Hst) as H.
  cbv zeta in H. fold report in H. rewrite Hbody, Hcontent in H.
  split; [| split].
  - intros span Hs. rewrite Hs in H. split; [now apply search_braces_spec | split].
    + intros j Hj. rewrite Hj in H. split; [exact H |]. eapply span_loads_dict; eassumption.
    + intros Hj. now rewrite Hj in H.
  - intros Hs. now rewrite Hs in H.
  - intros Hnone. destruct (Analyzer.search_braces content) as [span |] eqn:Hs; [| exact H].
    destruct (Json.loads span) as [j |] eqn:Hj; [| exact H].
    exfalso. destruct (span_loads_dict content span j Hs Hj) as [d ->].
    apply search_braces_spec in Hs. destruct Hs as (pre & mid & post & Hc & _).
    exact (Hnone pre span post d Hc Hj).
Qed.

(** C9 at a reply whose content wraps one JSON object in prose: the span
    between the braces is read and returned. *)
Lemma brace_span_parsed_or_fallback_witness :
  exists span j,
    Analyzer.search_braces Scenarios.wrapped_object = Some span /\
    Json.loads span = Some j /\
    snd (Analyzer.analyze_threat_with_groq Scenarios.wrapped_object_reply (Some [Scenarios.cup])) = j.
Proof.
  exists (py "{'threat_level': 'medium', 'risk_breakdown': {'high': 10}}").
  exists (PDict [("threat_level", PStr "medium"); ("risk_breakdown", PDict [("high", PInt 10)])]).
  assert (Hs : Analyzer.search_braces Scenarios.wrapped_object
               = Some (py "{'threat_level': 'medium', 'risk_breakdown': {'high': 10}}"))
    by (vm_compute; reflexivity).
  assert (Hj : Json.loads (py "{'threat_level': 'medium', 'risk_breakdown': {'high': 10}}")
               = Some (PDict [("threat_level", PStr "medium");
                              ("risk_breakdown", PDict [("high", PInt 10)])]))
    by (vm_compute; reflexivity).
  split; [exact Hs | split; [exact Hj |]].
  destruct (brace_span_parsed_or_fallback
              Scenarios.wrapped_object_reply [Scenarios.cup] "gsk"
              {| status_code := 200;
                 text := Scenarios.chat_completion
                   (py "Assessment: {\'threat_level\': \'medium\', \'risk_breakdown\': {\'high\': 10}} (end)") |}
              (PDict [("choices",
                       PList [PDict [("index", PInt 0);
                                     ("message",
                                      PDict [("role", PStr "assistant");
                                             ("content", PStr Scenarios.wrapped_object)])]])])
              Scenarios.wrapped_object)
    as [H _].
  - discriminate.
  - reflexivity.
  - reflexivity.
  - reflexivity.
  - vm_compute. reflexivity.
  - vm_compute. reflexivity.
  - destruct (H _ Hs) as (_ & Hret & _). exact (proj1 (Hret _ Hj)).
Defined.

(** C9, as stated, fails: the content of this reply starts with a
    well-formed JSON object and a second one follows it; the span from the
    first opening brace to the last closing brace is not JSON, and the
    analyzer returns the fallback report, not the first object. *)
Lemma first_object_not_returned :
  Json.loads (text {| status_code := 200;
                      text := Scenarios.chat_completion
                        (py "{\'threat_level\': \'low\'} {\'threat_level\': \'high\'}") |})
    = Some (PDict [("choices",
                    PList [PDict [("index", PInt 0);
                                  ("message",
                                   PDict [("role", PStr "assistant");
                                          ("content", PStr Scenarios.two_objects)])]])]) /\
  exists o post d,
    Scenarios.two_objects = o ++ post /\
    Json.loads o = Some (PDict d) /\
    snd (Analyzer.analyze_threat_with_groq Scenarios.two_objects_reply (Some [Scenarios.cup]))
      = Analyzer.fallback_report [Scenarios.cup] /\
    snd (Analyzer.analyze_threat_with_groq Scenarios.two_objects_reply (Some [Scenarios.cup]))
      <> PDict d.
Proof.
  split; [vm_compute; reflexivity |].
  exists (py "{'threat_level': 'low'}"), (py " {'threat_level': 'high'}"),
         [("threat_level", PStr "low")].
  split; [vm_compute; reflexivity | split; [vm_compute; reflexivity | split]].
  - vm_compute. reflexivity.
  - vm_compute. discriminate.
Qed.


(** ** BroadcastHub *)

Section HubFacts.

Import Hub.

Variable D : Type.

Lemma list_remove_absent (x : WebSocket) (l : list WebSocket) :
  ~ In x l -> list_remove x l = inl (ValueError "list.remove(x): x not in list").
Proof.
  induction l as [|y l IH]; simpl; intros Hno; [reflexivity |].
  destruct (Nat.eqb_spec x y) as [-> | _]; [tauto |]. rewrite IH; tauto.
Qed.

Lemma list_remove_first (x : WebSocket) (pre r : list WebSocket) :
  ~ In x pre -> list_remove x (pre ++ x :: r) = inr (pre ++ r)%list.
Proof.
  induction pre as [|y pre IH]; simpl; intros Hno.
  - now rewrite Nat.eqb_refl.
  - destruct (Nat.eqb_spec x y) as [-> | _]; [tauto |]. rewrite IH; tauto.
Qed.

Lemma list_remove_present (x : WebSocket) (l : list WebSocket) :
  In x l -> exists l', list_remove x l = inr l'.
Proof.
  intros Hin. apply in_split in Hin. destruct Hin as (pre & r & ->).
  induction pre as [|y pre IH]; simpl.
  - rewrite Nat.eqb_refl. eauto.
  - destruct (Nat.eqb_spec x y); [eauto |]. destruct IH as [l' ->]. eauto.
Qed.

Variable send_ok : WebSocket -> bool.

Lemma send_all_spec (data : D) (connected disconnected : list WebSocket) :
  send_all send_ok data connected disconnected
  = (map (fun ws => SendText ws data (send_ok ws)) connected,
     (disconnected ++ filter (failing send_ok) connected)%list).
Proof.
  revert disconnected; induction connected as [|ws l IH]; intros disconnected; simpl.
  - now rewrite app_nil_r.
  - rewrite IH. assert (Hf : failing send_ok ws = negb (send_ok ws)) by reflexivity.
    rewrite Hf. destruct (send_ok ws); cbn [negb]; [reflexivity |].
    now rewrite <- app_assoc.
Qed.

Lemma remove_all_spec (pre l : list WebSocket) :
  (forall ws, In ws pre -> send_ok ws = true) ->
  @remove_all D (filter (failing send_ok) l) (pre ++ l)
  = (map Remove (filter (failing send_ok) l), inr (pre ++ filter send_ok l)%list).
Proof.
  revert pre; induction l as [|ws l IH]; intros pre Hpre; cbn [filter].
  - reflexivity.
  - assert (Hf : failing send_ok ws = negb (send_ok ws)) by reflexivity.
    destruct (send_ok ws) eqn:Hok; rewrite Hf; cbn [negb].
    + replace (pre ++ ws :: l)%list with ((pre ++ [ws]) ++ l)%list by (now rewrite <- app_assoc).
      rewrite IH.
      * now rewrite <- app_assoc.
      * intros x Hx. apply in_app_or in Hx. destruct Hx as [Hx | [<- | []]]; auto.
    + cbn [remove_all]. rewrite list_remove_first.
      * now rewrite IH.
      * intros Hin. apply Hpre in Hin. congruence.
Qed.

(** What one publish does: a send to each connection in turn, then the
    removal of those whose send failed. *)
Lemma broadcast_spec (data : D) (connected : list WebSocket) :
  broadcast_detection_data send_ok data connected
  = ((map (fun ws => SendText ws data (send_ok ws)) connected
        ++ map Remove (filter (failing send_ok) connected))%list,
     inr (filter send_ok connected)).
Proof.
  unfold broadcast_detection_data. destruct connected as [|ws l]; [reflexivity |].
  rewrite send_all_spec. cbn [app].
  pose proof (remove_all_spec [] (ws :: l)) as H. cbn [app] in H.
  rewrite H by (intros x []). reflexivity.
Qed.

Lemma attempted_sends (data : D) (l : list WebSocket) :
  attempted (map (fun ws => SendText ws data (send_ok ws)) l) = l.
Proof. induction l as [|ws l IH]; simpl; [reflexivity | now rewrite IH]. Qed.

Lemma attempted_removes (l : list WebSocket) : attempted (map (@Remove D) l) = [].
Proof. induction l as [|ws l IH]; simpl; [reflexivity | exact IH]. Qed.

Lemma attempted_app (t1 t2 : list (HubEvent D)) :
  attempted (t1 ++ t2) = (attempted t1 ++ attempted t2)%list.
Proof. unfold attempted. apply flat_map_app. Qed.

Lemma delivered_sends (data : D) (l : list WebSocket) :
  delivered (map (fun ws => SendText ws data (send_ok ws)) l) = filter send_ok l.
Proof.
  induction l as [|ws l IH]; simpl; [reflexivity |].
  destruct (send_ok ws); simpl; now rewrite IH.
Qed.

End HubFacts.

(** Later publishes only ever send to connections still in the list. *)
Lemma broadcast_frames_attempted (D : Type) (frames : list ((WebSocket -> bool) * D)) :
  forall (l : list WebSocket) (ws : WebSocket),
    In ws (Hub.attempted (fst (Hub.broadcast_frames frames l))) -> In ws l.
Proof.
  induction frames as [|[ok data] frames IH]; intros l ws; simpl; [tauto |].
  rewrite broadcast_spec.
  destruct (Hub.broadcast_frames frames (filter ok l)) as [t' r] eqn:Hf.
  cbn [fst]. rewrite !attempted_app, attempted_sends, attempted_removes, app_nil_r.
  intros Hin. apply in_app_or in Hin. destruct Hin as [Hin | Hin]; [assumption |].
  specialize (IH (filter ok l) ws). rewrite Hf in IH. apply IH in Hin.
  apply filter_In in Hin. tauto.
Qed.

(** A sequence of publishes never raises. *)
Lemma broadcast_frames_total (D : Type) (frames : list ((WebSocket -> bool) * D)) :
  forall l : list WebSocket, exists l', snd (Hub.broadcast_frames frames l) = inr l'.
Proof.
  induction frames as [|[ok data] frames IH]; intros l; simpl; [eauto |].
  rewrite broadcast_spec. destruct (IH (filter ok l)) as [l' Hl'].
  destruct (Hub.broadcast_frames frames (filter ok l)) as [t' r]. simpl in *. eauto.
Qed.

(** C7. In a publish, every connection of the list gets its send, in
    order, whatever became of the sends before it; the connections whose
    send failed are removed only after the last send, and none of the
    publishes that follow sends to a removed connection, while the others
    stay in the list and were delivered the batch. *)
Theorem publish_isolates_failures :
  forall (D : Type) (send_ok : WebSocket -> bool) (data : D) (connected : list WebSocket),
    exists sends removes live,
      Hub.broadcast_detection_data send_ok data connected = ((sends ++ removes)%list, inr live) /\
      sends = map (fun ws => Hub.SendText ws data (send_ok ws)) connected /\
      Hub.attempted sends = connected /\
      removes = map Hub.Remove (filter (fun ws => negb (send_ok ws)) connected) /\
      live = filter send_ok connected /\
      (forall ws, In ws connected -> send_ok ws = true ->
         In ws (Hub.delivered sends) /\ In ws live) /\
      (forall ws, In ws connected -> send_ok ws = false ->
         ~ In ws live /\
         forall frames : list ((WebSocket -> bool) * D),
           ~ In ws (Hub.attempted (fst (Hub.broadcast_frames frames live)))).
Proof.
  intros D send_ok data connected.
  exists (map (fun ws => Hub.SendText ws data (send_ok ws)) connected),
         (map Hub.Remove (filter (fun ws => negb (send_ok ws)) connected)),
         (filter send_ok connected).
  split; [apply broadcast_spec |].
  split; [reflexivity |]. split; [apply attempted_sends |].
  split; [reflexivity |]. split; [reflexivity |]. split.
  - intros ws Hin Hok. rewrite delivered_sends. split; apply filter_In; auto.
  - intros ws Hin Hfail.
    assert (Hno : ~ In ws (filter send_ok connected)).
    { intros H. apply filter_In in H. destruct H as [_ H]. congruence. }
    split; [exact Hno |]. intros frames H. apply Hno.
    eapply broadcast_frames_attempted; eassumption.
Qed.

(** C8, which the code does not meet. The property: the disconnect of a
    connection that is no longer in the list does nothing and raises
    nothing. The code: such a disconnect raises [ValueError]. Here the send
    to connection 1 fails in a publish, which takes it out of the list; its
    disconnect then raises, and so does a second disconnect after a first
    one that succeeded. The other connections stay as they were. *)
Theorem disconnect_of_removed_connection_raises :
  snd (Hub.broadcast_detection_data (fun ws => negb (Nat.eqb ws 1)) tt [1; 2]%nat)
    = inr [2]%nat /\
  Hub.websocket_endpoint_disconnect 1%nat [2]%nat
    = inl (ValueError "list.remove(x): x not in list") /\
  Hub.websocket_endpoint_disconnect 1%nat [1; 2]%nat = inr [2]%nat /\
  (forall (ws : WebSocket) (l l' : list WebSocket),
      Hub.websocket_endpoint_disconnect ws l = inr l' ->
      ~ In ws l' ->
      Hub.websocket_endpoint_disconnect ws l'
        = inl (ValueError "list.remove(x): x not in list")).
Proof.
  repeat split; try reflexivity.
  intros ws l l' _ Hno. now apply list_remove_absent.
Qed.

(** ** DetectionWorker *)

Section WorkerFacts.

Import Worker.

Lemma Qgtb_spec (x y : Q) : Qgtb x y = true <-> (y < x)%Q.
Proof.
  unfold Qgtb. rewrite negb_true_iff, <- not_true_iff_false, Qle_bool_iff. split.
  - apply Qnot_le_lt.
  - apply Qlt_not_le.
Qed.

Lemma detected_object_confidence (classes_names : list (Z * string)) (box : Box) (o : DetectedObject) :
  detected_object classes_names box = inr o -> confidence o = conf box.
Proof.
  unfold detected_object. destruct (xyxy box) as [[[x1 y1] x2] y2].
  destruct (names_get classes_names (int (cls box))); [discriminate |].
  now intros [= <-].
Qed.

(** What the loop over the boxes of a result appends. *)
Lemma for_boxes_spec (classes_names : list (Z * string)) (bs : list Box) :
  forall acc out,
    for_boxes classes_names bs acc = inr out ->
    exists objs,
      out = (acc ++ objs)%list /\
      Forall2 (fun box o => detected_object classes_names box = inr o) (filter passes bs) objs.
Proof.
  induction bs as [|box bs IH]; intros acc out; simpl.
  - intros [= <-]. exists []. split; [now rewrite app_nil_r | constructor].
  - fold (passes box). destruct (passes box).
    + destruct (detected_object classes_names box) as [e | o] eqn:Ho; [discriminate |].
      intros H. destruct (IH _ _ H) as (objs & -> & HF).
      exists (o :: objs). split; [now rewrite <- app_assoc | now constructor].
    + apply IH.
Qed.

Lemma Forall2_right {A B} (R : A -> B -> Prop) (l1 : list A) (l2 : list B) (y : B) :
    Forall2 R l1 l2 -> In y l2 -> exists x, In x l1 /\ R x y.
Proof.
    induction 1 as [|a b l1 l2 Hab _ IH]; intros Hin; [destruct Hin |].
    destruct Hin as [<- | Hin]; [exists a; simpl; tauto |].
    destruct (IH Hin) as (x & Hx & HR). exists x. simpl. tauto.
Qed.

Lemma Forall2_left {A B} (R : A -> B -> Prop) (l1 : list A) (l2 : list B) (x : A) :
    Forall2 R l1 l2 -> In x l1 -> exists y, In y l2 /\ R x y.
Proof.
    induction 1 as [|a b l1 l2 Hab _ IH]; intros Hin; [destruct Hin |].
    destruct Hin as [<- | Hin]; [exists b; simpl; tauto |].
    destruct (IH Hin) as (y & Hy & HR). exists y. simpl. tauto.
Qed.

(** What the loop over the results of a frame appends: an object for each
    box that passes the test, and nothing else. *)
Lemma for_results_spec (results : list Result) :
  forall acc out,
    for_results results acc = inr out ->
    exists objs,
      out = (acc ++ objs)%list /\
      (forall o, In o objs ->
         exists result box, In result results /\ In box (boxes result) /\
           passes box = true /\ detected_object (names result) box = inr o) /\
      (forall result box, In result results -> In box (boxes result) -> passes box = true ->
         exists o, detected_object (names result) box = inr o /\ In o objs).
Proof.
  induction results as [|r rs IH]; intros acc out; simpl.
  - intros [= <-]. exists []. split; [now rewrite app_nil_r |]. split; [intros o [] | intros ? ? []].
  - destruct (for_boxes (names r) (boxes r) acc) as [e | d] eqn:Hb; [discriminate |].
    intros H. destruct (for_boxes_spec _ _ _ _ Hb) as (o1 & -> & HF).
    destruct (IH _ _ H) as (o2 & -> & Hsound & Hcomplete).
    exists (o1 ++ o2)%list. split; [now rewrite app_assoc |]. split.
    + intros o Hin. apply in_app_or in Hin. destruct Hin as [Hin | Hin].
      * destruct (Forall2_right _ _ _ _ HF Hin) as (box & Hbox & Ho).
        apply filter_In in Hbox. exists r, box. tauto.
      * destruct (Hsound o Hin) as (result & box & Hr & Hrest). exists result, box. tauto.
    + intros result box [<- | Hr] Hbox Hpass.
      * assert (Hin : In box (filter passes (boxes r))) by (apply filter_In; tauto).
        destruct (Forall2_left _ _ _ _ HF Hin) as (o & Ho & Hd).
        exists o. split; [assumption | apply in_or_app; now left].
      * destruct (Hcomplete result box Hr Hbox Hpass) as (o & Ho & Hin).
        exists o. split; [assumption | apply in_or_app; now right].
Qed.

End WorkerFacts.

(** C4. An object the detector found in a frame is in the batch built for
    that frame if and only if its confidence is strictly greater than 0.4:
    a confidence of 0.4 keeps it out, a confidence of 0.4001 puts it in. *)
Theorem confidence_threshold :
  forall (results : list Worker.Result) (now : string) (width height : Z)
         (batch : Worker.DetectionData),
    Worker.detection_data results now width height = inr batch ->
    forall (result : Worker.Result) (box : Worker.Box),
      In result results -> In box (Worker.boxes result) ->
      let included :=
        exists o, Worker.detected_object (Worker.names result) box = inr o /\
                  In o (Worker.objects batch) in
      (included <-> (4 # 10 < Worker.conf box)%Q) /\
      ((Worker.conf box == 4 # 10)%Q -> ~ included) /\
      ((Worker.conf box == 4001 # 10000)%Q -> included).
Proof.
  intros results now width height batch Hbatch result box Hr Hb included.
  unfold Worker.detection_data in Hbatch.
  destruct (Worker.for_results results []) as [e | objs] eqn:Hfor; [discriminate |].
  injection Hbatch as <-. cbn [Worker.objects] in included.
  destruct (for_results_spec results [] objs Hfor) as (objs' & Heq & Hsound & Hcomplete).
  cbn [app] in Heq. subst objs'.
  assert (Hiff : included <-> (4 # 10 < Worker.conf box)%Q).
  { split.
    - intros (o & Ho & Hin).
      destruct (Hsound o Hin) as (r' & b' & _ & _ & Hpass & Ho').
      apply detected_object_confidence in Ho, Ho'.
      apply Qgtb_spec in Hpass. now rewrite <- Ho, Ho'.
    - intros Hgt. apply Qgtb_spec in Hgt. exact (Hcomplete result box Hr Hb Hgt). }
  split; [exact Hiff | split].
  - intros Heq Hinc. apply Hiff in Hinc. rewrite Heq in Hinc. now apply Qlt_irrefl in Hinc.
  - intros Heq. apply Hiff. rewrite Heq. reflexivity.
Qed.

(** C4 on a frame with a box of confidence 0.4 and a box of confidence
    0.4001: the batch holds the second and not the first. *)
Lemma confidence_threshold_witness :
  Worker.detection_data Scenarios.frame "2024-01-01 00:00:00" 640 480
    = inr {| Worker.objects :=
               [{| Worker.class_name := "knife"; Worker.confidence := 4001 # 10000;
                   Worker.bbox := (2, 3, 150, 200) |}];
             Worker.timestamp := "2024-01-01 00:00:00";
             Worker.frame_width := 640; Worker.frame_height := 480 |} /\
  ~ (exists o, Worker.detected_object [(0, "person"); (43, "knife")] Scenarios.at_threshold = inr o /\
               In o [{| Worker.class_name := "knife"; Worker.confidence := 4001 # 10000;
                        Worker.bbox := (2, 3, 150, 200) |}]) /\
  (exists o, Worker.detected_object [(0, "person"); (43, "knife")] Scenarios.above_threshold = inr o /\
             In o [{| Worker.class_name := "knife"; Worker.confidence := 4001 # 10000;
                      Worker.bbox := (2, 3, 150, 200) |}]).
Proof.
  assert (Hbatch : Worker.detection_data Scenarios.frame "2024-01-01 00:00:00" 640 480
    = inr {| Worker.objects :=
               [{| Worker.class_name := "knife"; Worker.confidence := 4001 # 10000;
                   Worker.bbox := (2, 3, 150, 200) |}];
             Worker.timestamp := "2024-01-01 00:00:00";
             Worker.frame_width := 640; Worker.frame_height := 480 |}) by reflexivity.
  split; [exact Hbatch | split].
  - refine (proj1 (proj2 (confidence_threshold _ _ _ _ _ Hbatch
                            (List.hd (Worker.Build_Result [] []) Scenarios.frame)
                            Scenarios.at_threshold _ _)) _).
    + simpl. tauto.
    + simpl. tauto.
    + reflexivity.
  - refine (proj2 (proj2 (confidence_threshold _ _ _ _ _ Hbatch
                            (List.hd (Worker.Build_Result [] []) Scenarios.frame)
                            Scenarios.above_threshold _ _)) _).
    + simpl. tauto.
    + simpl. tauto.
    + reflexivity.
Defined.

(** ** StreamController *)

Section ControllerFacts.

Import Controller.

Lemma without_all (cap : nat) (l : list nat) :
  (forall x, In x l -> x = cap) -> without cap l = [].
Proof.
  induction l as [|y l IH]; simpl; intros H; [reflexivity |].
  rewrite (H y (or_introl eq_refl)), Nat.eqb_refl. simpl. apply IH. auto.
Qed.

Lemma mem_nil (x : nat) : mem x [] = false.
Proof. reflexivity. Qed.

Lemma mem_here (x : nat) (l : list nat) : mem x (x :: l) = true.
Proof. unfold mem. simpl. now rewrite Nat.eqb_refl. Qed.

Local Arguments mem : simpl never.

(** After the first lines of [start_stream] (247-249) nothing holds the
    device, provided the session owned every open capture object. *)
Lemma release_current (s : Session) :
  owned s ->
  opened (match video_capture s with
          | Some cap => set_video_capture None (release cap s)
          | None => s
          end) = [].
Proof.
  intros Hown. destruct (video_capture s) as [cap |] eqn:Hv; simpl.
  - apply without_all. intros x Hx. specialize (Hown x Hx). congruence.
  - destruct (opened s) as [|x l] eqn:Ho; [reflexivity |].
    specialize (Hown x). rewrite Ho in Hown. specialize (Hown (or_introl eq_refl)). congruence.
Qed.

(** [start_stream] when the camera does not open. *)
Lemma start_stream_camera_fails (finished : bool) (s : Session) :
  owned s ->
  start_stream false finished s
  = ((match video_capture s with Some cap => [Release cap] | None => [] end
        ++ [VideoCapture (next_capture s) false])%list,
     {| video_capture := Some (next_capture s); streaming := streaming s;
        detection_thread := detection_thread s;
        opened := []; alive := alive s;
        next_capture := S (next_capture s); next_thread := next_thread s |},
     PDict [("error", PStr "Could not open camera")]).
Proof.
  intros Hown. pose proof (release_current s Hown) as Hrel.
  unfold start_stream, isOpened.
  destruct (video_capture s) as [cap |]; cbn in *; rewrite Hrel, mem_nil; reflexivity.
Qed.

(** [start_stream] keeps the ownership of the device, and at most one
    capture object holds it afterwards. *)
Lemma start_stream_owned (camera_ok finished : bool) (s : Session) :
  owned s ->
  let s' := snd (fst (start_stream camera_ok finished s)) in
  owned s' /\ (length (opened s') <= 1)%nat.
Proof.
  intros Hown. pose proof (release_current s Hown) as Hrel.
  unfold start_stream, owned, isOpened, is_alive.
  destruct (video_capture s) as [cap |]; destruct camera_ok; destruct finished;
    cbn in *; rewrite ?Hrel, ?mem_here, ?mem_nil; cbn;
    repeat match goal with
           | |- context [match ?x with Some _ => _ | None => _ end] => destruct x; cbn
           | |- context [if ?b then _ else _] => destruct b; cbn
           end;
    rewrite ?Hrel, ?Nat.eqb_refl; cbn;
    (split; [intros c Hc; repeat (destruct Hc as [Hc | Hc]; [now subst |]); now destruct Hc | lia]).
Qed.

(** A start while the thread of the previous start is alive, with a camera
    that opens: the new capture object is created before the thread is
    joined, and the flag is left down. *)
Lemma start_stream_while_alive (finished : bool) (s : Session) (thread : nat) :
  owned s ->
  detection_thread s = Some thread ->
  is_alive thread s = true ->
  let '(t, s', result) := start_stream true finished s in
  result = PDict [("message", PStr "Streaming started")] /\
  streaming s' = false /\
  loop_condition s' = false /\
  exists before after,
    t = (before ++ VideoCapture (next_capture s) true :: after)%list /\
    In (Join thread finished) after /\
    ~ In (Join thread finished) before.
Proof.
  intros Hown Hth Hal. pose proof (release_current s Hown) as Hrel.
  unfold start_stream, isOpened, is_alive in *.
  destruct (video_capture s) as [cap |]; cbn in *; rewrite Hrel, mem_here; cbn;
    rewrite Hth, Hal; destruct finished; cbn;
    (split; [reflexivity | split; [reflexivity | split; [reflexivity |]]]).
  - exists [Release cap], [Release (next_capture s); Join thread true; Start (next_thread s)].
    cbn. intuition discriminate.
  - exists [Release cap], [Join thread false; Start (next_thread s)].
    cbn. intuition discriminate.
  - exists [], [Release (next_capture s); Join thread true; Start (next_thread s)].
    cbn. intuition discriminate.
  - exists [], [Join thread false; Start (next_thread s)].
    cbn. intuition discriminate.
Qed.

(** A start from a session with no live thread, with a camera that opens,
    raises the flag and starts a thread whose loop runs. *)
Lemma start_stream_fresh (finished : bool) (s : Session) :
  owned s ->
  (forall thread, detection_thread s = Some thread -> is_alive thread s = false) ->
  let '(t, s', result) := start_stream true finished s in
  result = PDict [("message", PStr "Streaming started")] /\
  streaming s' = true /\ loop_condition s' = true /\
  opened s' = [next_capture s] /\ detection_thread s' = Some (next_thread s).
Proof.
  intros Hown Hth. pose proof (release_current s Hown) as Hrel.
  unfold start_stream, isOpened, is_alive in *.
  destruct (video_capture s) as [cap |]; cbn in *; rewrite Hrel, mem_here; cbn;
    destruct (detection_thread s) as [thread |]; cbn;
    rewrite ?(Hth _ eq_refl); cbn; repeat split; reflexivity.
Qed.

End ControllerFacts.

Lemma stop_stream_owned (env : Env) (request : Controller.StopStreamRequest) (s : Controller.Session) :
  Controller.owned s -> Controller.owned (snd (fst (Controller.stop_stream env request s))).
Proof.
  intros Hown. unfold Controller.stop_stream.
  destruct (Analyzer.analyze_threat_with_groq env _). exact Hown.
Qed.

Lemma detection_loop_exit_owned (thread : nat) (s : Controller.Session) :
  Controller.owned s ->
  Controller.owned (snd (Controller.detection_loop_exit thread s)) /\
  Controller.opened (snd (Controller.detection_loop_exit thread s)) = [].
Proof.
  intros Hown. unfold Controller.detection_loop_exit, Controller.owned.
  destruct (Controller.video_capture s) as [cap |] eqn:Hv; cbn.
  - assert (H : Controller.without cap (Controller.opened s) = []).
    { apply without_all. intros x Hx. specialize (Hown x Hx). congruence. }
    rewrite H. split; [intros c [] | reflexivity].
  - destruct (Controller.opened s) as [|x l] eqn:Ho.
    + split; [intros c [] | reflexivity].
    + specialize (Hown x). rewrite Ho in Hown. specialize (Hown (or_introl eq_refl)). congruence.
Qed.

(** C5, which the code does not meet. The property: a start while a worker
    is running drains that worker before the new capture is opened, and the
    new worker then runs with the streaming flag set. The code: a second
    start, made while the worker of the first is alive, creates the new
    capture object before it joins that worker and leaves the streaming flag
    down, so the new worker finds the test of its loop false, whether the
    join ended in time or not. At no moment do two capture objects hold the
    device: the old one is released first. *)
Theorem restart_opens_before_join_and_leaves_flag_down :
  Scenarios.running
    = {| Controller.video_capture := Some 0%nat; Controller.streaming := true;
         Controller.detection_thread := Some 0%nat;
         Controller.opened := [0%nat]; Controller.alive := [0%nat];
         Controller.next_capture := 1%nat; Controller.next_thread := 1%nat |} /\
  Controller.start_stream true true Scenarios.running
    = ([Controller.Release 0; Controller.VideoCapture 1 true;
        Controller.Release 1; Controller.Join 0 true; Controller.Start 1],
       {| Controller.video_capture := Some 1%nat; Controller.streaming := false;
          Controller.detection_thread := Some 1%nat;
          Controller.opened := []; Controller.alive := [1%nat];
          Controller.next_capture := 2%nat; Controller.next_thread := 2%nat |},
       PDict [("message", PStr "Streaming started")]) /\
  Controller.start_stream true false Scenarios.running
    = ([Controller.Release 0; Controller.VideoCapture 1 true;
        Controller.Join 0 false; Controller.Start 1],
       {| Controller.video_capture := Some 1%nat; Controller.streaming := false;
          Controller.detection_thread := Some 1%nat;
          Controller.opened := [1%nat]; Controller.alive := [1%nat; 0%nat];
          Controller.next_capture := 2%nat; Controller.next_thread := 2%nat |},
       PDict [("message", PStr "Streaming started")]) /\
  (forall finished,
      Controller.loop_condition
        (snd (fst (Controller.start_stream true finished Scenarios.running))) = false).
Proof.
  repeat split; try reflexivity. intros []; reflexivity.
Qed.

(** C6. When the camera does not open, [start_stream] returns the error
    result, leaves the flag as it was (so an idle session stays idle),
    starts no thread, and leaves no capture object holding the device. *)
Theorem failed_open_returns_error :
  forall (s : Controller.Session) (finished : bool),
    Controller.owned s ->
    let '(t, s', result) := Controller.start_stream false finished s in
    result = PDict [("error", PStr "Could not open camera")] /\
    Controller.streaming s' = Controller.streaming s /\
    (Controller.streaming s = false -> Controller.loop_condition s' = false) /\
    Controller.detection_thread s' = Controller.detection_thread s /\
    Controller.alive s' = Controller.alive s /\
    (forall thread, ~ In (Controller.Start thread) t) /\
    Controller.opened s' = [] /\
    (forall cap, Controller.isOpened cap s' = false).
Proof.
  intros s finished Hown. rewrite (start_stream_camera_fails finished s Hown).
  cbn [Controller.streaming Controller.detection_thread Controller.alive Controller.opened].
  repeat split.
  - intros H. unfold Controller.loop_condition. cbn. now rewrite H.
  - intros thread Hin. apply in_app_or in Hin.
    destruct Hin as [Hin | [Hin | []]]; [| discriminate].
    destruct (Controller.video_capture s); [destruct Hin as [Hin | []]; discriminate | destruct Hin].
Qed.

(** C6 at the initial session. *)
Lemma failed_open_returns_error_witness :
  Controller.owned Controller.initial /\
  Controller.start_stream false false Controller.initial
    = ([Controller.VideoCapture 0 false],
       {| Controller.video_capture := Some 0%nat; Controller.streaming := false;
          Controller.detection_thread := None;
          Controller.opened := []; Controller.alive := [];
          Controller.next_capture := 1%nat; Controller.next_thread := 0%nat |},
       PDict [("error", PStr "Could not open camera")]) /\
  Controller.opened (snd (fst (Controller.start_stream false false Controller.initial))) = [].
Proof.
  assert (Hown : Controller.owned Controller.initial) by (intros cap []).
  split; [exact Hown | split; [reflexivity |]].
  pose proof (failed_open_returns_error Controller.initial false Hown) as H.
  destruct (Controller.start_stream false false Controller.initial) as [[t s'] result].
  exact (proj1 (proj2 (proj2 (proj2 (proj2 (proj2 (proj2 H))))))).
Defined.

(* ===================================================================== *)
(** * Further properties of the code *)
(* ===================================================================== *)

(** ** Box colours *)

Section ColourFacts.

Import Colours.

(** The three cases of [getColours], by the remainder of the class id. *)
Lemma getColours_cases (cls_num : Z) :
  let q := cls_num / 3 in
  (cls_num mod 3 = 0 /\ getColours cls_num = [255 + q mod 256; (-2 * q) mod 256; q mod 256]) \/
  (cls_num mod 3 = 1 /\ getColours cls_num = [(-2 * q) mod 256; 255 + q mod 256; (- q) mod 256]) \/
  (cls_num mod 3 = 2 /\ getColours cls_num = [q mod 256; (- q) mod 256; 255 + (2 * q) mod 256]).
Proof.
  intros q. unfold getColours. change (Z.of_nat (length base_colors)) with 3. fold q.
  assert (H : cls_num mod 3 = 0 \/ cls_num mod 3 = 1 \/ cls_num mod 3 = 2)
    by (pose proof (Z.mod_pos_bound cls_num 3); lia).
  destruct H as [H | [H | H]]; rewrite H; [left | right; left | right; right];
    (split; [reflexivity |]); cbn [map item Z.to_nat Pos.to_nat Pos.iter_op Nat.add nth];
    cbv [base_colors increments nth];
    rewrite ?Z.add_0_l, ?Z.mul_1_l;
    replace (-1 * q) with (- q) by lia; reflexivity.
Qed.

End ColourFacts.

Section ColourFacts2.

Import Colours.

Lemma getColours_mod_768 (cls_num : Z) : getColours cls_num = getColours (cls_num mod 768).
Proof.
  destruct (getColours_cases cls_num) as [[Ha Ea] | [[Ha Ea] | [Ha Ea]]];
  destruct (getColours_cases (cls_num mod 768)) as [[Hb Eb] | [[Hb Eb] | [Hb Eb]]];
  rewrite Ea, Eb; cbv zeta in *;
  try (exfalso; clear Ea Eb; Z.div_mod_to_equations; lia);
  clear Ea Eb; (f_equal; [| f_equal; [| f_equal]]); Z.div_mod_to_equations; lia.
Qed.

Lemma getColours_injective (a b : Z) :
  0 <= a < 768 -> 0 <= b < 768 -> getColours a = getColours b -> a = b.
Proof.
  intros Ha Hb.
  assert (Qa : 0 <= a / 3 <= 255) by (Z.div_mod_to_equations; lia).
  assert (Qb : 0 <= b / 3 <= 255) by (Z.div_mod_to_equations; lia).
  assert (Da : a = 3 * (a / 3) + a mod 3) by (apply Z.div_mod; lia).
  assert (Db : b = 3 * (b / 3) + b mod 3) by (apply Z.div_mod; lia).
  destruct (getColours_cases a) as [[Ka Ea] | [[Ka Ea] | [Ka Ea]]];
  destruct (getColours_cases b) as [[Kb Eb] | [[Kb Eb] | [Kb Eb]]];
  rewrite Ea, Eb; cbv zeta; clear Ea Eb; intros H;
  pose proof (f_equal (fun l => nth 0 l 0) H) as H1;
  pose proof (f_equal (fun l => nth 1 l 0) H) as H2;
  pose proof (f_equal (fun l => nth 2 l 0) H) as H3;
  cbn [nth] in H1, H2, H3; clear H;
  rewrite Ka in Da; rewrite Kb in Db; clear Ka Kb;
  set (x := a / 3) in *; set (y := b / 3) in *; clearbody x y;
  rewrite ?(Z.mod_small x 256), ?(Z.mod_small y 256) in * by lia;
  try lia;
  try (Z.div_mod_to_equations; lia).
Qed.

End ColourFacts2.

(** X1. Two class ids get the same colour exactly when they differ by a
    multiple of 768: below 768 the colours of distinct classes are distinct,
    and from there on they repeat. *)
Theorem getColours_same_colour :
  forall a b : Z, Colours.getColours a = Colours.getColours b <-> a mod 768 = b mod 768.
Proof.
  intros a b. split.
  - intros H. rewrite (getColours_mod_768 a), (getColours_mod_768 b) in H.
    apply getColours_injective in H; [assumption | |]; apply Z.mod_pos_bound; lia.
  - intros H. now rewrite (getColours_mod_768 a), (getColours_mod_768 b), H.
Qed.

(** X2. A colour has three components, each between 0 and 510; the
    component of the base channel (red, green or blue by the remainder of
    the class id by 3) is at least 255. *)
Theorem getColours_range :
  forall cls_num : Z,
    length (Colours.getColours cls_num) = 3%nat /\
    (forall c, In c (Colours.getColours cls_num) -> 0 <= c <= 510) /\
    255 <= nth (Z.to_nat (cls_num mod 3)) (Colours.getColours cls_num) 0.
Proof.
  intros cls_num.
  destruct (getColours_cases cls_num) as [[K E] | [[K E] | [K E]]];
    rewrite E, K; cbv zeta; (split; [reflexivity | split]);
    try (intros c [<- | [<- | [<- | []]]]);
    try change (Z.to_nat 0) with 0%nat; try change (Z.to_nat 1) with 1%nat;
    try change (Z.to_nat 2) with 2%nat; cbn [nth];
    Z.div_mod_to_equations; lia.
Qed.

(** X3. For the class ids from 3 to 383 the component of the base channel
    is above 255: the colour is not a triple of 8-bit values. *)
Theorem getColours_above_255 :
  forall cls_num : Z,
    3 <= cls_num < 384 ->
    255 < nth (Z.to_nat (cls_num mod 3)) (Colours.getColours cls_num) 0.
Proof.
  intros cls_num H.
  destruct (getColours_cases cls_num) as [[K E] | [[K E] | [K E]]];
    rewrite E, K; cbv zeta;
    try change (Z.to_nat 0) with 0%nat; try change (Z.to_nat 1) with 1%nat;
    try change (Z.to_nat 2) with 2%nat; cbn [nth];
    Z.div_mod_to_equations; lia.
Qed.

(** X3 at class 3, the first id after the three base colours. *)
Lemma getColours_above_255_witness :
  Colours.getColours 3 = [256; 254; 1] /\
  255 < nth (Z.to_nat (3 mod 3)) (Colours.getColours 3) 0.
Proof.
  split; [reflexivity |]. apply (getColours_above_255 3). lia.
Defined.

(** ** The loop of the worker *)

Section LoopFacts.

Import Loop.

Lemma leave_spec (thread : nat) (s : Controller.Session) (c : list WebSocket) :
  exists t s',
    leave thread s c = (map Cleanup t, Returned s', c) /\
    Controller.detection_loop_exit thread s = (t, s').
Proof.
  unfold leave. destruct (Controller.detection_loop_exit thread s) as [t s']. eauto.
Qed.

Lemma sends_app (t1 t2 : list WorkerEvent) : sends (t1 ++ t2) = (sends t1 ++ sends t2)%list.
Proof. unfold sends. apply flat_map_app. Qed.

Lemma sends_cleanup (t : list Controller.ControllerEvent) : sends (map Cleanup t) = [].
Proof. induction t as [|ev t IH]; simpl; [reflexivity | exact IH]. Qed.



End LoopFacts.

(** X4. The loop breaks on a key exactly when the value of [waitKey] is
    113 modulo 256: the code of q, whatever the bits above the low byte;
    the value -1, returned when no key was pressed, never breaks it. *)
Theorem quit_key_low_byte :
  forall key : Z, Loop.quit_key key = true <-> key mod 256 = 113.
Proof.
  intros key. unfold Loop.quit_key.
  change 255 with (Z.ones 8). rewrite Z.land_ones by lia.
  change (2 ^ 8) with 256. apply Z.eqb_eq.
Qed.

Lemma read_frames_app (t1 t2 : list Loop.WorkerEvent) :
  read_frames (t1 ++ t2) = (read_frames t1 ++ read_frames t2)%list.
Proof. unfold read_frames. apply filter_app. Qed.

(** X5. A failed read is skipped: with the loop's test true, a turn whose
    read fails sends nothing, changes nothing and does not end the loop;
    the run goes on as if that turn had not been. *)
Theorem failed_read_is_skipped :
  forall (thread : nat) (pre : list Loop.Turn) (turn : Loop.Turn) (post : list Loop.Turn)
         (connected : list WebSocket),
    Controller.loop_condition (Loop.seen turn) = true ->
    Loop.grabbed turn = None ->
    let '(t1, e1, l1) := Loop.detection_loop thread (pre ++ turn :: post) connected in
    let '(t2, e2, l2) := Loop.detection_loop thread (pre ++ post) connected in
    e1 = e2 /\ l1 = l2 /\ read_frames t1 = read_frames t2.
Proof.
  intros thread pre turn post connected Hcond Hread. revert connected.
  induction pre as [|p pre IH]; intros connected.
  - cbn [app Loop.detection_loop]. rewrite Hcond, Hread. cbn [negb].
    destruct (Loop.detection_loop thread post connected) as [[t e] l]. auto.
  - cbn [app Loop.detection_loop].
    destruct (negb (Controller.loop_condition (Loop.seen p))).
    { destruct (Loop.leave thread (Loop.seen p) connected) as [[t e] l]. auto. }
    destruct (Loop.grabbed p) as [frame |].
    + destruct (Worker.detection_data _ _ _ _) as [e | data]; [auto |].
      destruct (Hub.broadcast_detection_data _ _ _) as [t1 [e | l1]]; [auto |].
      destruct (Loop.quit_key (Loop.key p)).
      { destruct (Loop.leave thread (Loop.seen p) l1) as [[t e] l]. auto. }
      specialize (IH l1).
      destruct (Loop.detection_loop thread (pre ++ turn :: post) l1) as [[ta ea] la].
      destruct (Loop.detection_loop thread (pre ++ post) l1) as [[tb eb] lb].
      destruct IH as (He & Hl & Ht). repeat split; [assumption | assumption |].
      unfold read_frames in *. cbn [filter]. rewrite !filter_app. now rewrite Ht.
    + specialize (IH connected).
      destruct (Loop.detection_loop thread (pre ++ turn :: post) connected) as [[ta ea] la].
      destruct (Loop.detection_loop thread (pre ++ post) connected) as [[tb eb] lb].
      destruct IH as (He & Hl & Ht). repeat split; [assumption | assumption |].
      unfold read_frames in *. cbn [filter]. exact Ht.
Qed.

(** X6. A loop that returns has released the capture: if every session the
    thread met owned its open capture objects, then after the return no
    capture object holds the device and the thread is not alive. *)
Theorem returned_loop_released :
  forall (thread : nat) (turns : list Loop.Turn) (connected : list WebSocket)
         t s' l,
    (forall turn, In turn turns -> Controller.owned (Loop.seen turn)) ->
    Loop.detection_loop thread turns connected = (t, Loop.Returned s', l) ->
    Controller.opened s' = [] /\ ~ In thread (Controller.alive s') /\ Controller.owned s'.
Proof.
  intros thread turns. induction turns as [|p turns IH]; intros connected t s' l Hown H.
  - discriminate.
  - assert (Hleave : forall c t s' l,
              Loop.leave thread (Loop.seen p) c = (t, Loop.Returned s', l) ->
              Controller.opened s' = [] /\ ~ In thread (Controller.alive s') /\
              Controller.owned s').
    { intros c t0 s0 l0 Hl. destruct (leave_spec thread (Loop.seen p) c) as (t1 & s1 & E & Hx).
      rewrite E in Hl. injection Hl as _ <- _.
      pose proof (detection_loop_exit_owned thread (Loop.seen p) (Hown p (or_introl eq_refl)))
        as [Ho Hn].
      rewrite Hx in Ho, Hn. cbn [snd] in Ho, Hn. split; [assumption | split; [| assumption]].
      unfold Controller.detection_loop_exit in Hx.
      destruct (Controller.video_capture (Loop.seen p)); injection Hx as _ <-; cbn;
        unfold Controller.without; intros Hin; apply filter_In in Hin;
        destruct Hin as [_ Hin]; now rewrite Nat.eqb_refl in Hin. }
    assert (Hrest : forall turn, In turn turns -> Controller.owned (Loop.seen turn))
      by (intros turn Hin; apply Hown; now right).
    cbn [Loop.detection_loop] in H.
    destruct (negb (Controller.loop_condition (Loop.seen p))); [now apply Hleave in H |].
    destruct (Loop.grabbed p) as [frame |].
    + destruct (Worker.detection_data _ _ _ _) as [e | data]; [discriminate |].
      destruct (Hub.broadcast_detection_data _ _ _) as [t1 [e | l1]]; [discriminate |].
      destruct (Loop.quit_key (Loop.key p)).
      * destruct (Loop.leave thread (Loop.seen p) l1) as [[ta ea] la] eqn:E.
        injection H as _ -> _. now apply Hleave in E.
      * destruct (Loop.detection_loop thread turns l1) as [[ta ea] la] eqn:E.
        injection H as _ -> _. eapply IH; eassumption.
    + destruct (Loop.detection_loop thread turns connected) as [[ta ea] la] eqn:E.
      injection H as _ -> _. eapply IH; eassumption.
Qed.

Lemma names_get_error (classes_names : list (Z * string)) (k : Z) (e : Exn) :
  Worker.names_get classes_names k = inl e -> e = KeyError (str_of_Z k).
Proof.
  induction classes_names as [|[k' v] r IH]; simpl.
  - now intros [= <-].
  - destruct (k =? k'); [discriminate | exact IH].
Qed.

Lemma for_boxes_error (classes_names : list (Z * string)) (bs : list Worker.Box) :
  forall acc e, Worker.for_boxes classes_names bs acc = inl e -> exists k, e = KeyError k.
Proof.
  induction bs as [|box bs IH]; intros acc e; simpl; [discriminate |].
  destruct (Worker.Qgtb (Worker.conf box) (4 # 10)); [| apply IH].
  unfold Worker.detected_object. destruct (Worker.xyxy box) as [[[x1 y1] x2] y2].
  destruct (Worker.names_get classes_names (Worker.int (Worker.cls box))) as [e' | name] eqn:E.
  - intros [= <-]. apply names_get_error in E. eauto.
  - apply IH.
Qed.

Lemma detection_data_error (results : list Worker.Result) now width height e :
  Worker.detection_data results now width height = inl e -> exists k, e = KeyError k.
Proof.
  unfold Worker.detection_data.
  assert (H : forall acc, Worker.for_results results acc = inl e -> exists k, e = KeyError k).
  { induction results as [|r rs IH]; intros acc; simpl; [discriminate |].
    destruct (Worker.for_boxes (Worker.names r) (Worker.boxes r) acc) as [e' | d] eqn:E.
    - intros [= <-]. eapply for_boxes_error; eassumption.
    - apply IH. }
  destruct (Worker.for_results results []) as [e' | d] eqn:E; [| discriminate].
  intros [= <-]. eapply H; eassumption.
Qed.



(** X8. A stop is honoured: once a turn finds the test of the loop false,
    the loop is over by that turn, whatever the turns that follow. *)
Theorem loop_ends_when_test_fails :
  forall (thread : nat) (turns : list Loop.Turn) (connected : list WebSocket),
    (exists turn, In turn turns /\ Controller.loop_condition (Loop.seen turn) = false) ->
    snd (fst (Loop.detection_loop thread turns connected)) <> Loop.Turning.
Proof.
  intros thread turns. induction turns as [|p turns IH]; intros connected (turn & Hin & Hc).
  - destruct Hin.
  - cbn [Loop.detection_loop].
    destruct (Controller.loop_condition (Loop.seen p)) eqn:Hp; cbn [negb].
    + assert (Hex : exists turn, In turn turns /\
                      Controller.loop_condition (Loop.seen turn) = false).
      { destruct Hin as [<- | Hin]; [congruence | eauto]. }
      destruct (Loop.grabbed p) as [frame |].
      * destruct (Worker.detection_data _ _ _ _) as [e0 | data]; [discriminate |].
        rewrite broadcast_spec.
        destruct (Loop.quit_key (Loop.key p)).
        -- destruct (leave_spec thread (Loop.seen p) (filter (Loop.send_ok p) connected))
             as (t1 & s1 & E & _).
           rewrite E. discriminate.
        -- specialize (IH (filter (Loop.send_ok p) connected) Hex).
           destruct (Loop.detection_loop thread turns _) as [[ta ea] la]. exact IH.
      * specialize (IH connected Hex).
        destruct (Loop.detection_loop thread turns connected) as [[ta ea] la]. exact IH.
    + destruct (leave_spec thread (Loop.seen p) connected) as (t1 & s1 & E & _).
      rewrite E. discriminate.
Qed.

(** ** The batch of a frame *)

Lemma detected_object_stands_for (r : Worker.Result) (b : Worker.Box) (o : Worker.DetectedObject) :
  Worker.detected_object (Worker.names r) b = inr o <-> stands_for (r, b) o.
Proof.
  unfold Worker.detected_object, stands_for. cbn [fst snd].
  destruct (Worker.xyxy b) as [[[x1 y1] x2] y2].
  destruct (Worker.names_get (Worker.names r) (Worker.int (Worker.cls b))) as [e | name]; split.
  - discriminate.
  - intros (H & _). discriminate.
  - intros [= <-]. cbn. auto.
  - intros (H & Hc & Hb). injection H as ->. destruct o as [cn cf bb]. cbn in *. now subst.
Qed.

Lemma Forall2_map_left {A B C} (R : A -> C -> Prop) (R' : B -> C -> Prop) (f : A -> B)
      (l : list A) (l' : list C) :
  (forall a c, R a c -> R' (f a) c) -> Forall2 R l l' -> Forall2 R' (map f l) l'.
Proof.
  intros Hf. induction 1 as [|a c l l' Hac _ IH]; cbn [map]; constructor; auto.
Qed.

Lemma for_boxes_in_order (r : Worker.Result) (bs : list Worker.Box) :
  forall acc out,
    Worker.for_boxes (Worker.names r) bs acc = inr out ->
    exists objs, out = (acc ++ objs)%list /\
                 Forall2 stands_for (map (pair r) (filter passes bs)) objs.
Proof.
  intros acc out H. destruct (for_boxes_spec _ _ _ _ H) as (objs & -> & HF).
  exists objs. split; [reflexivity |].
  apply Forall2_map_left with (R := fun box o =>
    Worker.detected_object (Worker.names r) box = inr o); [| exact HF].
  intros b o. apply detected_object_stands_for.
Qed.

Lemma for_results_in_order (results : list Worker.Result) :
  forall acc out,
    Worker.for_results results acc = inr out ->
    exists objs, out = (acc ++ objs)%list /\ Forall2 stands_for (passing_boxes results) objs.
Proof.
  induction results as [|r rs IH]; intros acc out; simpl.
  - intros [= <-]. exists []. split; [now rewrite app_nil_r | constructor].
  - destruct (Worker.for_boxes (Worker.names r) (Worker.boxes r) acc) as [e | d] eqn:Hb;
      [discriminate |].
    intros H. destruct (for_boxes_in_order _ _ _ _ Hb) as (o1 & -> & HF1).
    destruct (IH _ _ H) as (o2 & -> & HF2).
    exists (o1 ++ o2)%list. split; [now rewrite app_assoc |].
    unfold passing_boxes. cbn [flat_map]. now apply Forall2_app.
Qed.

(** X9. The batch of a frame holds one object for each box that passes the
    threshold, in the order of the detector: the object carries the
    confidence of its box unchanged, the name of its class, and the corners
    of the box rounded towards zero; the time and the shape of the frame are
    passed on as given. *)
Theorem batch_follows_detector_order :
  forall (results : list Worker.Result) (now : string) (width height : Z)
         (batch : Worker.DetectionData),
    Worker.detection_data results now width height = inr batch ->
    Forall2 stands_for (passing_boxes results) (Worker.objects batch) /\
    length (Worker.objects batch) = length (passing_boxes results) /\
    Worker.timestamp batch = now /\
    Worker.frame_width batch = width /\ Worker.frame_height batch = height.
Proof.
  intros results now width height batch. unfold Worker.detection_data.
  destruct (Worker.for_results results []) as [e | objs] eqn:H; [discriminate |].
  intros [= <-]. cbn.
  destruct (for_results_in_order _ _ _ H) as (objs' & Heq & HF). cbn [app] in Heq. subst objs'.
  repeat split; [assumption |]. symmetry. eapply Forall2_length; eassumption.
Qed.

Lemma for_boxes_known (classes_names : list (Z * string)) (bs : list Worker.Box) :
  (forall b, In b bs -> passes b = true ->
     exists name, Worker.names_get classes_names (Worker.int (Worker.cls b)) = inr name) ->
  forall acc, exists out, Worker.for_boxes classes_names bs acc = inr out.
Proof.
  induction bs as [|box bs IH]; intros Hk acc; simpl; [eauto |].
  assert (Hrest : forall b, In b bs -> passes b = true ->
            exists name, Worker.names_get classes_names (Worker.int (Worker.cls b)) = inr name)
    by (intros b Hb; apply Hk; now right).
  fold (passes box). destruct (passes box) eqn:Hp; [| now apply IH].
  destruct (Hk box (or_introl eq_refl) Hp) as [name Hn].
  unfold Worker.detected_object. destruct (Worker.xyxy box) as [[[x1 y1] x2] y2].
  rewrite Hn. now apply IH.
Qed.

(** X10. A frame yields a batch exactly when the names of the detector
    hold the class id of every box that passes the threshold; otherwise the
    processing of the frame raises [KeyError]. A class id that is missing
    does no harm on a box below the threshold. *)
Theorem batch_built_iff_classes_known :
  forall (results : list Worker.Result) (now : string) (width height : Z),
    ((exists batch, Worker.detection_data results now width height = inr batch) <->
     (forall result box, In result results -> In box (Worker.boxes result) ->
        passes box = true ->
        exists name,
          Worker.names_get (Worker.names result) (Worker.int (Worker.cls box)) = inr name)) /\
    (forall e, Worker.detection_data results now width height = inl e ->
               exists k, e = KeyError k).
Proof.
  intros results now width height. split; [| intros e; apply detection_data_error].
  split.
  - intros [batch H] result box Hr Hb Hp.
    unfold Worker.detection_data in H.
    destruct (Worker.for_results results []) as [e | objs] eqn:Hf; [discriminate |].
    destruct (for_results_spec _ _ _ Hf) as (objs' & _ & _ & Hcomplete).
    destruct (Hcomplete result box Hr Hb Hp) as (o & Ho & _).
    apply detected_object_stands_for in Ho. unfold stands_for in Ho. cbn [fst snd] in Ho.
    destruct (Worker.xyxy box) as [[[x1 y1] x2] y2]. destruct Ho as (Ho & _). eauto.
  - intros Hk. unfold Worker.detection_data.
    assert (H : forall acc, exists out, Worker.for_results results acc = inr out).
    { induction results as [|r rs IH]; intros acc; simpl; [eauto |].
      destruct (for_boxes_known (Worker.names r) (Worker.boxes r)
                  (fun b Hb => Hk r b (or_introl eq_refl) Hb) acc) as [d ->].
      apply IH. intros result box Hr. apply Hk. now right. }
    destruct (H []) as [out ->]. eauto.
Qed.

(** ** Connections *)

Lemma list_remove_split (ws : WebSocket) (l l' : list WebSocket) :
  Hub.list_remove ws l = inr l' ->
  exists pre post, l = (pre ++ ws :: post)%list /\ ~ In ws pre /\ l' = (pre ++ post)%list.
Proof.
  revert l'; induction l as [|y l IH]; intros l'; simpl; [discriminate |].
  destruct (Nat.eqb_spec ws y) as [<- | Hne].
  - intros [= <-]. exists [], l. simpl. tauto.
  - destruct (Hub.list_remove ws l) as [e | r] eqn:E; [discriminate |].
    intros [= <-]. destruct (IH r eq_refl) as (pre & post & -> & Hno & ->).
    exists (y :: pre), post. simpl. intuition congruence.
Qed.

(** X11. A disconnect takes out of the list the first occurrence of the
    connection and nothing else, the others keeping their order; it raises
    exactly when the connection is not in the list. *)
Theorem disconnect_removes_first_occurrence :
  forall (ws : WebSocket) (l : list WebSocket),
    (forall l',
        Hub.websocket_endpoint_disconnect ws l = inr l' <->
        exists pre post,
          l = (pre ++ ws :: post)%list /\ ~ In ws pre /\ l' = (pre ++ post)%list) /\
    ((exists e, Hub.websocket_endpoint_disconnect ws l = inl e) <-> ~ In ws l).
Proof.
  intros ws l. unfold Hub.websocket_endpoint_disconnect. split.
  - intros l'. split; [apply list_remove_split |].
    intros (pre & post & -> & Hno & ->). now apply list_remove_first.
  - split.
    + intros [e He] Hin. destruct (list_remove_present ws l Hin) as [l' Hl']. congruence.
    + intros Hno. rewrite (list_remove_absent ws l Hno). eauto.
Qed.

(** X12. Accepting a connection that is not in the list and then
    disconnecting it gives the list back; in between, the connection is the
    last of the list, so a publish serves it after all the others. *)
Theorem accept_then_disconnect :
  forall (ws : WebSocket) (l : list WebSocket),
    ~ In ws l ->
    Hub.websocket_endpoint_disconnect ws (Hub.websocket_endpoint_accept ws l) = inr l /\
    forall (D : Type) (send_ok : WebSocket -> bool) (data : D),
      Hub.attempted (fst (Hub.broadcast_detection_data send_ok data
                            (Hub.websocket_endpoint_accept ws l)))
      = (l ++ [ws])%list.
Proof.
  intros ws l Hno. unfold Hub.websocket_endpoint_disconnect, Hub.websocket_endpoint_accept. split.
  - rewrite (list_remove_first ws l [] Hno). now rewrite app_nil_r.
  - intros D send_ok data. rewrite broadcast_spec. cbn [fst].
    now rewrite attempted_app, attempted_sends, attempted_removes, app_nil_r.
Qed.

Lemma NoDup_filter {A} (f : A -> bool) (l : list A) : NoDup l -> NoDup (filter f l).
Proof.
  induction 1 as [|x l Hx _ IH]; simpl; [constructor |].
  destruct (f x); [| exact IH]. constructor; [| exact IH].
  intros Hin. apply filter_In in Hin. tauto.
Qed.

(** X13. A list that holds no connection twice stays so under accepting a
    new connection, under a publish and under a disconnect; and after its
    disconnect a connection is gone from the list, so that no later publish
    sends to it. *)
Theorem connections_stay_distinct :
  forall l : list WebSocket,
    NoDup l ->
    (forall ws, ~ In ws l -> NoDup (Hub.websocket_endpoint_accept ws l)) /\
    (forall (D : Type) (send_ok : WebSocket -> bool) (data : D),
        exists live, snd (Hub.broadcast_detection_data send_ok data l) = inr live /\ NoDup live) /\
    (forall ws l',
        Hub.websocket_endpoint_disconnect ws l = inr l' ->
        NoDup l' /\ ~ In ws l' /\
        forall (D : Type) (frames : list ((WebSocket -> bool) * D)),
          ~ In ws (Hub.attempted (fst (Hub.broadcast_frames frames l')))).
Proof.
  intros l Hnd. split; [| split].
  - intros ws Hno. unfold Hub.websocket_endpoint_accept.
    apply NoDup_app; [assumption | repeat constructor; intros [] | ].
    intros x Hx [<- | []]. contradiction.
  - intros D send_ok data. rewrite broadcast_spec. cbn [snd].
    eexists. split; [reflexivity | now apply NoDup_filter].
  - intros ws l' H. apply list_remove_split in H. destruct H as (pre & post & -> & Hno & ->).
    apply NoDup_remove in Hnd. destruct Hnd as [Hnd Hnotin].
    split; [assumption | split; [assumption |]].
    intros D frames Hin. apply Hnotin. eapply broadcast_frames_attempted; eassumption.
Qed.

(** X14. Publishing twice with the same outcomes: the second publish sends
    only to the connections the first left, every one of its sends
    succeeds, it removes nothing and leaves the list as it found it. *)
Theorem second_publish_removes_nothing :
  forall (D : Type) (send_ok : WebSocket -> bool) (data data' : D) (connected : list WebSocket),
    exists live,
      snd (Hub.broadcast_detection_data send_ok data connected) = inr live /\
      Hub.broadcast_detection_data send_ok data' live
        = (map (fun ws => Hub.SendText ws data' true) live, inr live) /\
      (forall ws, In ws live <-> In ws connected /\ send_ok ws = true).
Proof.
  intros D send_ok data data' connected. exists (filter send_ok connected).
  rewrite !broadcast_spec. cbn [snd]. split; [reflexivity | split].
  - assert (Hall : forall ws, In ws (filter send_ok connected) -> send_ok ws = true)
      by (intros ws H; apply filter_In in H; tauto).
    induction (filter send_ok connected) as [|ws l IH]; [reflexivity |].
    assert (Hl : forall x, In x l -> send_ok x = true) by (intros x Hx; apply Hall; now right).
    specialize (IH Hl). injection IH as IH1 IH2.
    cbn [map filter]. unfold failing at 1. rewrite (Hall ws (or_introl eq_refl)). cbn [negb].
    rewrite <- app_comm_cons. now rewrite IH1, IH2.
  - intros ws. apply filter_In.
Qed.

(** ** What the analyzer sends and what it makes itself *)

Lemma append_assoc (a b c : string) : (a ++ b) ++ c = a ++ b ++ c.
Proof. induction a as [|x a IH]; [reflexivity |]. cbn [String.append]. now rewrite IH. Qed.

Lemma append_nil_r (a : string) : a ++ "" = a.
Proof. induction a as [|x a IH]; [reflexivity |]. cbn [String.append]. now rewrite IH. Qed.

Lemma contains_self (x : string) : contains x x = true.
Proof. apply contains_spec. exists "", "". cbn [String.append]. now rewrite append_nil_r. Qed.

Lemma contains_trans (x y z : string) :
  contains x y = true -> contains y z = true -> contains x z = true.
Proof.
  rewrite !contains_spec. intros (p1 & q1 & ->) (p2 & q2 & ->).
  exists (p2 ++ p1), (q1 ++ q2). now rewrite !append_assoc.
Qed.

Lemma contains_inside (x a b : string) : contains x (a ++ x ++ b) = true.
Proof. apply contains_spec. now exists a, b. Qed.

Lemma contains_join (sep x : string) (l : list string) :
  In x l -> contains x (join sep l) = true.
Proof.
  induction l as [|y l IH]; [intros [] |].
  intros Hin. destruct l as [|z l].
  - destruct Hin as [-> | []]. apply contains_self.
  - change (join sep (y :: z :: l)) with (y ++ sep ++ join sep (z :: l)).
    destruct Hin as [-> | Hin].
    + apply (contains_inside x "").
    + apply (contains_trans _ (join sep (z :: l))); [now apply IH |].
      rewrite <- append_assoc, <- (append_nil_r (join sep (z :: l))) at 1.
      rewrite <- (append_nil_r (join sep (z :: l))) at 2.
      apply contains_spec. exists (y ++ sep), "". now rewrite !append_nil_r.
Qed.

(** X15. With a credential and detections, the first thing the analyzer
    does is to post one request to the completions address, bearing the
    credential; nothing else is posted. The user message of the request is
    the prompt, which names every detection with its confidence to two
    decimals. *)
Theorem request_carries_detections :
  forall (env : Env) (key : string) (objs : list Detection),
    objs <> [] ->
    credential env = Some key ->
    exists req rest system,
      fst (Analyzer.analyze_threat_with_groq env (Some objs)) = Posted req :: rest /\
      (forall ev, In ev rest -> Analyzer.is_post ev = false) /\
      url req = "https://api.groq.com/openai/v1/chat/completions" /\
      In ("Authorization", "Bearer " ++ key) (headers req) /\
      field "messages" (json req)
        = Some (PList [system;
                       PDict [("role", PStr "user");
                              ("content", PStr (Analyzer.prompt objs))]]) /\
      (forall obj, In obj objs ->
         contains (class_name obj ++ " (confidence: " ++ format_2f (confidence obj) ++ ")")
                  (Analyzer.prompt objs) = true).
Proof.
  intros env key objs Hne Hk.
  exists (Analyzer.groq_request key (Analyzer.prompt objs)).
  assert (Hrest : exists rest,
             fst (Analyzer.analyze_threat_with_groq env (Some objs))
             = Posted (Analyzer.groq_request key (Analyzer.prompt objs)) :: rest /\
             forall ev, In ev rest -> Analyzer.is_post ev = false).
  { destruct (groq_analysis_trace env (Analyzer.prompt objs)) as [Ht | (key' & Hk' & Ht)].
    { exfalso.
      destruct (requests_post env (Analyzer.groq_request key (Analyzer.prompt objs)))
        as [e | response] eqn:Hp.
      - rewrite (groq_analysis_post_raises env _ key e Hk Hp) in Ht. discriminate.
      - destruct (Z.eq_dec (status_code response) 200) as [Hst | Hst].
        + rewrite (groq_analysis_status_200 env _ key response Hk Hp Hst) in Ht. discriminate.
        + rewrite (groq_analysis_bad_status env _ key response Hk Hp Hst) in Ht. discriminate. }
    assert (key' = key) by congruence. subst key'.
    destruct (analyze_sources env objs Hne) as [(t & j & d & Hg & _ & Ha) | (t & e & Hg & Ha)];
      rewrite Hg in Ht; cbn [fst] in Ht; subst t; rewrite Ha; cbn [fst app].
    - exists []. split; [reflexivity | intros ev []].
    - exists [Printed e]. split; [reflexivity |]. intros ev [<- | []]. reflexivity. }
  destruct Hrest as (rest & Hfst & Hposts).
  exists rest, (PDict [("role", PStr "system");
                       ("content", PStr "You are a security threat analysis expert. Analyze detected objects and provide comprehensive threat assessments.")]).
  split; [exact Hfst | split; [exact Hposts |]].
  split; [reflexivity | split; [now left | split; [reflexivity |]]].
  intros obj Hin.
  apply (contains_trans _ (Analyzer.objects_text objs)).
  - unfold Analyzer.objects_text. apply contains_join. unfold Analyzer.object_list.
    apply (in_map (fun obj => class_name obj ++ " (confidence: "
                                ++ format_2f (confidence obj) ++ ")")). exact Hin.
  - apply (contains_trans _ ("    Detected Objects: " ++ Analyzer.objects_text objs)).
    + rewrite <- (append_nil_r (Analyzer.objects_text objs)) at 2. apply contains_inside.
    + unfold Analyzer.prompt. apply contains_join. right. right. right. now left.
Qed.

(** X16. Without a credential (the variable unset or empty) the analyzer
    posts nothing, whatever the detections: its report is the one of the
    empty session or the fallback's. *)
Theorem no_credential_no_request :
  forall (env : Env) (accumulated_objects : option (list Detection)),
    credential env = None ->
    filter Analyzer.is_post (fst (Analyzer.analyze_threat_with_groq env accumulated_objects)) = [] /\
    (snd (Analyzer.analyze_threat_with_groq env accumulated_objects) = Analyzer.empty_report \/
     exists objs, accumulated_objects = Some objs /\
       snd (Analyzer.analyze_threat_with_groq env accumulated_objects)
         = Analyzer.fallback_report objs).
Proof.
  intros env o Hk. destruct o as [[|obj objs] |]; [cbn; auto | | cbn; auto].
  assert (Hne : obj :: objs <> []) by discriminate.
  pose proof (groq_analysis_no_credential env (Analyzer.prompt (obj :: objs)) Hk) as Hg.
  rewrite (analyze_on_failure env _ _ _ Hne Hg). cbn [fst snd app filter Analyzer.is_post].
  split; [reflexivity |]. right. eauto.
Qed.

Lemma is_dangerous_name (o o' : Detection) :
  class_name o = class_name o' -> Analyzer.is_dangerous o = Analyzer.is_dangerous o'.
Proof. intros H. unfold Analyzer.is_dangerous. now rewrite H. Qed.

Lemma detected_keywords_names (objs objs' : list Detection) :
  map class_name objs = map class_name objs' ->
  Analyzer.detected_keywords objs = Analyzer.detected_keywords objs'.
Proof.
  unfold Analyzer.detected_keywords. revert objs'.
  induction objs as [|o objs IH]; intros [|o' objs']; cbn [map]; try discriminate; [reflexivity |].
  intros [= Hn Hrest]. cbn [filter]. rewrite (is_dangerous_name o o' Hn).
  specialize (IH objs' Hrest).
  destruct (Analyzer.is_dangerous o'); cbn [map]; congruence.
Qed.

(** X17. The fallback looks at class names only: two sequences of
    detections with the same class names, whatever their confidences, get
    the same fallback report; and the detections that match no keyword do
    not count: the report is that of the matching detections alone. *)
Theorem fallback_ignores_confidence :
  forall objs objs' : list Detection,
    (map class_name objs = map class_name objs' ->
     Analyzer.fallback_report objs = Analyzer.fallback_report objs') /\
    Analyzer.fallback_report objs
      = Analyzer.fallback_report (filter Analyzer.is_dangerous objs).
Proof.
  intros objs objs'. split.
  - intros H. unfold Analyzer.fallback_report. now rewrite (detected_keywords_names _ _ H).
  - unfold Analyzer.fallback_report, Analyzer.detected_keywords.
    assert (H : filter Analyzer.is_dangerous (filter Analyzer.is_dangerous objs)
                = filter Analyzer.is_dangerous objs).
    { induction objs as [|o objs IH]; [reflexivity |]. cbn [filter].
      destruct (Analyzer.is_dangerous o) eqn:Ho; [| exact IH].
      cbn [filter]. now rewrite Ho, IH. }
    now rewrite H.
Qed.

(** ** The session over time *)

(** X18. In every session that starts, stops, returns and deaths of the
    worker can bring about, at most one capture object holds the device,
    and it is the one the global [video_capture] names. *)
Theorem device_held_at_most_once :
  forall s : Controller.Session,
    reachable s ->
    Controller.owned s /\ (length (Controller.opened s) <= 1)%nat.
Proof.
  induction 1 as [| s camera_ok finished _ [IHo IHl] | s env request _ [IHo IHl]
                  | s thread _ [IHo IHl] | s thread _ [IHo IHl]].
  - split; [intros cap [] | cbn; lia].
  - exact (start_stream_owned camera_ok finished s IHo).
  - split; [now apply stop_stream_owned |].
    unfold Controller.stop_stream.
    destruct (Analyzer.analyze_threat_with_groq env _). exact IHl.
  - destruct (detection_loop_exit_owned thread s IHo) as [Ho Hn].
    split; [exact Ho | rewrite Hn; cbn; lia].
  - split; [exact IHo | exact IHl].
Qed.

(** X18 at the session a start, a stop and a second start lead to. *)
Lemma device_held_at_most_once_witness :
  (length (Controller.opened
             (snd (fst (Controller.start_stream true false
                          (snd (fst (Controller.stop_stream Scenarios.no_key
                                       (Controller.parse_request Controller.Omitted)
                                       Scenarios.running))))))) <= 1)%nat.
Proof.
  refine (proj2 (device_held_at_most_once _ _)).
  apply reach_start. apply reach_stop. unfold Scenarios.running.
  apply reach_start. apply reach_initial.
Defined.

Lemma mem_without (x : nat) (l : list nat) : Controller.mem x (Controller.without x l) = false.
Proof.
  unfold Controller.mem, Controller.without.
  induction l as [|y l IH]; [reflexivity |]. cbn [filter].
  destruct (Nat.eqb_spec x y) as [-> | Hne]; cbn [negb]; [exact IH |].
  cbn [existsb]. rewrite IH. destruct (Nat.eqb_spec x y); [contradiction | reflexivity].
Qed.

Section StartFacts.

Local Arguments Controller.mem : simpl never.

Lemma start_stream_thread (finished : bool) (s : Controller.Session) :
  Controller.owned s ->
  Controller.detection_thread (snd (fst (Controller.start_stream true finished s)))
    = Some (Controller.next_thread s) /\
  In (Controller.Start (Controller.next_thread s))
     (fst (fst (Controller.start_stream true finished s))).
Proof.
  intros Hown. pose proof (release_current s Hown) as Hrel.
  unfold Controller.start_stream, Controller.isOpened, Controller.is_alive.
  destruct (Controller.video_capture s) as [cap |]; destruct finished;
    cbn in *; rewrite ?Hrel, ?mem_here; cbn;
    repeat match goal with
           | |- context [match ?x with Some _ => _ | None => _ end] => destruct x; cbn
           | |- context [if ?b then _ else _] => destruct b; cbn
           end;
    (split; [reflexivity |]); rewrite ?in_app_iff; cbn; tauto.
Qed.

End StartFacts.

(** X19. What a start with a camera that opens makes of the flag: the
    session streams afterwards exactly when the thread the global named
    was not alive. In both cases the handler answers that streaming started,
    and a new thread is started and named by the global. *)
Theorem start_streams_iff_no_live_worker :
  forall (s : Controller.Session) (finished : bool),
    Controller.owned s ->
    let '(t, s', result) := Controller.start_stream true finished s in
    result = PDict [("message", PStr "Streaming started")] /\
    Controller.streaming s' = negb (worker_alive s) /\
    Controller.loop_condition s' = negb (worker_alive s) /\
    Controller.detection_thread s' = Some (Controller.next_thread s) /\
    In (Controller.Start (Controller.next_thread s)) t.
Proof.
  intros s finished Hown. unfold worker_alive.
  pose proof (start_stream_thread finished s Hown) as Hthread.
  destruct (Controller.detection_thread s) as [thread |] eqn:Hth.
  - destruct (Controller.is_alive thread s) eqn:Hal.
    + pose proof (start_stream_while_alive finished s thread Hown Hth Hal) as H.
      destruct (Controller.start_stream true finished s) as [[t s'] result].
      cbn [fst snd negb] in *. destruct H as (H1 & H2 & H3 & _). tauto.
    + assert (Hno : forall th, Controller.detection_thread s = Some th ->
                               Controller.is_alive th s = false) by (intros th; congruence).
      pose proof (start_stream_fresh finished s Hown Hno) as H.
      destruct (Controller.start_stream true finished s) as [[t s'] result].
      cbn [fst snd negb] in *. destruct H as (H1 & H2 & H3 & _). tauto.
  - assert (Hno : forall th, Controller.detection_thread s = Some th ->
                             Controller.is_alive th s = false) by (intros th; congruence).
    pose proof (start_stream_fresh finished s Hown Hno) as H.
    destruct (Controller.start_stream true finished s) as [[t s'] result].
    cbn [fst snd negb] in *. destruct H as (H1 & H2 & H3 & _). tauto.
Qed.

(** X20. After a stop the worker is done at its next test: it finds the
    test false, sends nothing, releases the capture the global names and
    returns, leaving no capture object holding the device and the list of
    connections as it was. The stop itself releases nothing. *)
Theorem stop_ends_worker :
  forall (env : Env) (request : Controller.StopStreamRequest) (s : Controller.Session)
         (thread : nat) (turn : Loop.Turn) (rest : list Loop.Turn) (connected : list WebSocket),
    Controller.owned s ->
    Loop.seen turn = snd (fst (Controller.stop_stream env request s)) ->
    Controller.opened (Loop.seen turn) = Controller.opened s /\
    let '(t, e, l) := Loop.detection_loop thread (turn :: rest) connected in
    l = connected /\ Loop.sends t = [] /\
    Loop.releases t = (match Controller.video_capture s with Some _ => true | None => false end) /\
    exists s', e = Loop.Returned s' /\ Controller.opened s' = [] /\
               Controller.streaming s' = false /\ ~ In thread (Controller.alive s').
Proof.
  intros env request s thread turn rest connected Hown Hseen.
  assert (Hs : Loop.seen turn = Controller.set_streaming false s).
  { rewrite Hseen. unfold Controller.stop_stream.
    now destruct (Analyzer.analyze_threat_with_groq env _). }
  split; [now rewrite Hs |].
  cbn [Loop.detection_loop]. rewrite Hs.
  change (Controller.loop_condition (Controller.set_streaming false s)) with false.
  cbn [negb]. unfold Loop.leave, Controller.detection_loop_exit.
  change (Controller.video_capture (Controller.set_streaming false s))
    with (Controller.video_capture s).
  destruct (Controller.video_capture s) as [cap |] eqn:Hv.
  - split; [reflexivity | split; [reflexivity | split; [reflexivity |]]].
    eexists. split; [reflexivity |]. cbn. split; [| split; [reflexivity |]].
    + apply without_all. intros x Hx. specialize (Hown x Hx). congruence.
    + intros Hin. apply filter_In in Hin. destruct Hin as [_ Hin].
      now rewrite Nat.eqb_refl in Hin.
  - split; [reflexivity | split; [reflexivity | split; [reflexivity |]]].
    eexists. split; [reflexivity |]. cbn. split; [| split; [reflexivity |]].
    + destruct (Controller.opened s) as [|x l] eqn:Ho; [reflexivity |].
      specialize (Hown x). rewrite Ho in Hown. specialize (Hown (or_introl eq_refl)). congruence.
    + intros Hin. apply filter_In in Hin. destruct Hin as [_ Hin].
      now rewrite Nat.eqb_refl in Hin.
Qed.

(** X21. Once the worker has returned, a start with a camera that opens
    streams again: the flag is up, the test of the new worker's loop holds,
    and the new capture object is the only one that holds the device. *)
Theorem start_after_worker_returned :
  forall (s : Controller.Session) (thread : nat) (finished : bool),
    Controller.owned s ->
    Controller.detection_thread s = Some thread ->
    let s1 := snd (Controller.detection_loop_exit thread s) in
    let '(t, s2, result) := Controller.start_stream true finished s1 in
    result = PDict [("message", PStr "Streaming started")] /\
    Controller.streaming s2 = true /\
    Controller.loop_condition s2 = true /\
    Controller.opened s2 = [Controller.next_capture s].
Proof.
  intros s thread finished Hown Hth s1.
  assert (Hown1 : Controller.owned s1) by (apply detection_loop_exit_owned; assumption).
  assert (Hfacts : Controller.detection_thread s1 = Some thread /\
                   Controller.alive s1 = Controller.without thread (Controller.alive s) /\
                   Controller.next_capture s1 = Controller.next_capture s).
  { subst s1. unfold Controller.detection_loop_exit.
    destruct (Controller.video_capture s); cbn; auto. }
  destruct Hfacts as (Hth1 & Hal1 & Hnc1).
  assert (Hno : forall th, Controller.detection_thread s1 = Some th ->
                           Controller.is_alive th s1 = false).
  { intros th H. rewrite Hth1 in H. injection H as <-.
    unfold Controller.is_alive. rewrite Hal1. apply mem_without. }
  pose proof (start_stream_fresh finished s1 Hown1 Hno) as H.
  destruct (Controller.start_stream true finished s1) as [[t s2] result].
  destruct H as (H1 & H2 & H3 & H4 & _). rewrite Hnc1 in H4. auto.
Qed.

(** X22. A report the analyzer makes itself, the fallback's, is coherent:
    it has the seven fields, its percentage lies between 0 and 100, the
    three shares of its breakdown are not negative and sum to 100, and its
    level is high, with a percentage that is a multiple of 20 and at least
    20 and equal to the high share, exactly when its list of keywords is not
    empty; otherwise the level is low, the percentage 0 and the low share
    100. *)
Theorem fallback_report_coherent :
  forall objs : list Detection,
    let report := Analyzer.fallback_report objs in
    Analyzer.has_all_fields report = true /\
    exists level pct high medium low kws,
      field "threat_level" report = Some (PStr level) /\
      field "threat_percentage" report = Some (PInt pct) /\
      field "risk_breakdown" report
        = Some (PDict [("high", PInt high); ("medium", PInt medium); ("low", PInt low)]) /\
      field "detected_keywords" report = Some (PList (map PStr kws)) /\
      0 <= pct <= 100 /\ 0 <= high /\ 0 <= medium /\ 0 <= low /\ high + medium + low = 100 /\
      ((kws <> [] /\ level = "high" /\ 20 <= pct /\ pct mod 20 = 0 /\ high = pct /\ low = 0) \/
       (kws = [] /\ level = "low" /\ pct = 0 /\ low = 100)).
Proof.
  intros objs report. split; [apply fallback_report_fields |].
  subst report. unfold Analyzer.fallback_report.
  destruct (Analyzer.detected_keywords objs) as [|k ks] eqn:Hk.
  - exists "low", 0, 0, 0, 100, []. repeat split; try reflexivity; try lia. right. auto.
  - set (n := Z.of_nat (length (k :: ks))).
    assert (Hn : 1 <= n) by (subst n; cbn [length]; lia).
    exists "high", (Z.min 100 (n * 20)), (Z.min 100 (n * 20)),
           (100 - Z.min 100 (n * 20)), 0, (k :: ks).
    repeat split; try reflexivity; try lia.
    left. repeat split; try lia; try discriminate.
    destruct (Z.le_ge_cases 100 (n * 20)) as [H | H].
    + rewrite Z.min_l by assumption. reflexivity.
    + rewrite Z.min_r by assumption. replace (n * 20) with (20 * n) by lia.
      rewrite Z.mul_comm. apply Z.mod_mul. lia.
Qed.

(** ** The properties above, run on concrete sessions *)

(** X5 with a failed read before the turn of a frame. *)
Lemma failed_read_is_skipped_witness :
  Controller.loop_condition (Loop.seen Scenarios.failed_read) = true /\
  Loop.grabbed Scenarios.failed_read = None /\
  snd (fst (Loop.detection_loop 0 [Scenarios.failed_read; Scenarios.frame_turn] [1; 2]%nat))
  = snd (fst (Loop.detection_loop 0 [Scenarios.frame_turn] [1; 2]%nat)) /\
  Loop.sends (fst (fst (Loop.detection_loop 0 [Scenarios.failed_read; Scenarios.frame_turn]
                          [1; 2]%nat))) = [1; 2]%nat.
Proof.
  assert (Hc : Controller.loop_condition (Loop.seen Scenarios.failed_read) = true) by reflexivity.
  assert (Hg : Loop.grabbed Scenarios.failed_read = None) by reflexivity.
  split; [exact Hc | split; [exact Hg |]].
  pose proof (failed_read_is_skipped 0 [] Scenarios.failed_read [Scenarios.frame_turn]
                [1; 2]%nat Hc Hg) as H.
  cbn [app] in H.
  destruct (Loop.detection_loop 0 [Scenarios.failed_read; Scenarios.frame_turn] [1; 2]%nat)
    as [[t1 e1] l1] eqn:E1.
  destruct (Loop.detection_loop 0 [Scenarios.frame_turn] [1; 2]%nat) as [[t2 e2] l2] eqn:E2.
  destruct H as (He & _ & _). split; [exact He |].
  vm_compute in E1. injection E1 as <- _ _. reflexivity.
Defined.

(** X6 on the turn after a stop. *)
Lemma returned_loop_released_witness :
  exists t s' l,
    Loop.detection_loop 0 [Scenarios.frame_turn; Scenarios.last_turn] [1]%nat
      = (t, Loop.Returned s', l) /\
    Controller.opened s' = [] /\ ~ In 0%nat (Controller.alive s').
Proof.
  assert (Hown : forall turn, In turn [Scenarios.frame_turn; Scenarios.last_turn] ->
                              Controller.owned (Loop.seen turn)).
  { intros turn [<- | [<- | []]]; intros cap [<- | []]; reflexivity. }
  destruct (Loop.detection_loop 0 [Scenarios.frame_turn; Scenarios.last_turn] [1]%nat)
    as [[t e] l] eqn:E.
  assert (He : exists s', e = Loop.Returned s').
  { vm_compute in E. injection E as _ <- _. eauto. }
  destruct He as [s' ->]. exists t, s', l. split; [reflexivity |].
  destruct (returned_loop_released 0 _ _ t s' l Hown E) as (H1 & H2 & _). auto.
Defined.


(** X8 with the turn after a stop at the end of the turns. *)
Lemma loop_ends_when_test_fails_witness :
  snd (fst (Loop.detection_loop 0 [Scenarios.failed_read; Scenarios.frame_turn;
                                   Scenarios.last_turn] [1]%nat)) <> Loop.Turning.
Proof.
  apply loop_ends_when_test_fails. exists Scenarios.last_turn.
  split; [cbn; tauto | reflexivity].
Defined.

(** X9 on the frame with a box at the threshold and a box above it. *)
Lemma batch_follows_detector_order_witness :
  exists batch,
    Worker.detection_data Scenarios.frame "2024-01-01 00:00:00" 640 480 = inr batch /\
    length (Worker.objects batch) = 1%nat /\
    Worker.timestamp batch = "2024-01-01 00:00:00".
Proof.
  eexists. split; [reflexivity |].
  destruct (batch_follows_detector_order Scenarios.frame "2024-01-01 00:00:00" 640 480 _ eq_refl)
    as (_ & Hl & Ht & _).
  split; [exact Hl | exact Ht].
Defined.

(** X12 with a third connection. *)
Lemma accept_then_disconnect_witness :
  ~ In 3%nat [1; 2]%nat /\
  Hub.websocket_endpoint_disconnect 3%nat (Hub.websocket_endpoint_accept 3%nat [1; 2]%nat)
    = inr [1; 2]%nat.
Proof.
  assert (H : ~ In 3%nat [1; 2]%nat) by (cbn; intros [H | [H | []]]; discriminate).
  split; [exact H |]. exact (proj1 (accept_then_disconnect 3%nat [1; 2]%nat H)).
Defined.

(** X13 on two connections. *)
Lemma connections_stay_distinct_witness :
  NoDup [1; 2]%nat /\
  forall l', Hub.websocket_endpoint_disconnect 1%nat [1; 2]%nat = inr l' -> ~ In 1%nat l'.
Proof.
  assert (H : NoDup [1; 2]%nat).
  { constructor; [cbn; intros [H | []]; discriminate |].
    constructor; [intros [] | constructor]. }
  split; [exact H |]. intros l' Hl.
  destruct (connections_stay_distinct [1; 2]%nat H) as (_ & _ & Hd).
  exact (proj1 (proj2 (Hd 1%nat l' Hl))).
Defined.

(** X15 with one knife and a service that answers. *)
Lemma request_carries_detections_witness :
  [Scenarios.knife] <> [] /\
  credential Scenarios.empty_object_reply = Some "gsk" /\
  contains "knife (confidence: 0.90)" (Analyzer.prompt [Scenarios.knife]) = true.
Proof.
  assert (Hne : [Scenarios.knife] <> []) by discriminate.
  assert (Hk : credential Scenarios.empty_object_reply = Some "gsk") by reflexivity.
  split; [exact Hne | split; [exact Hk |]].
  destruct (request_carries_detections Scenarios.empty_object_reply "gsk" [Scenarios.knife] Hne Hk)
    as (req & rest & system & _ & _ & _ & _ & _ & Hc).
  exact (Hc Scenarios.knife (or_introl eq_refl)).
Defined.

(** X16 with no credential and one knife. *)
Lemma no_credential_no_request_witness :
  credential Scenarios.no_key = None /\
  filter Analyzer.is_post
    (fst (Analyzer.analyze_threat_with_groq Scenarios.no_key (Some [Scenarios.knife]))) = [].
Proof.
  assert (Hk : credential Scenarios.no_key = None) by reflexivity.
  split; [exact Hk |].
  exact (proj1 (no_credential_no_request Scenarios.no_key (Some [Scenarios.knife]) Hk)).
Defined.

(** X19 at the initial session, where no thread is alive. *)
Lemma start_streams_iff_no_live_worker_witness :
  Controller.owned Controller.initial /\
  Controller.streaming (snd (fst (Controller.start_stream true false Controller.initial)))
    = true.
Proof.
  assert (Hown : Controller.owned Controller.initial) by (intros cap []).
  split; [exact Hown |].
  pose proof (start_streams_iff_no_live_worker Controller.initial false Hown) as H.
  destruct (Controller.start_stream true false Controller.initial) as [[t s'] result].
  exact (proj1 (proj2 H)).
Defined.

(** X20 at the running session. *)
Lemma stop_ends_worker_witness :
  Controller.owned Scenarios.running /\
  exists s',
    snd (fst (Loop.detection_loop 0 [Scenarios.last_turn; Scenarios.frame_turn] [1]%nat))
      = Loop.Returned s' /\
    Controller.opened s' = [].
Proof.
  assert (Hown : Controller.owned Scenarios.running) by (intros cap [<- | []]; reflexivity).
  split; [exact Hown |].
  destruct (stop_ends_worker Scenarios.no_key (Controller.parse_request Controller.Omitted)
              Scenarios.running 0 Scenarios.last_turn [Scenarios.frame_turn] [1]%nat
              Hown eq_refl) as [_ H].
  destruct (Loop.detection_loop 0 [Scenarios.last_turn; Scenarios.frame_turn] [1]%nat)
    as [[t e] l].
  destruct H as (_ & _ & _ & s' & He & Ho & _). exists s'. split; [exact He | exact Ho].
Defined.

(** X21 at the running session, once its worker has returned. *)
Lemma start_after_worker_returned_witness :
  Controller.owned Scenarios.running /\
  Controller.detection_thread Scenarios.running = Some 0%nat /\
  Controller.streaming
    (snd (fst (Controller.start_stream true false
                 (snd (Controller.detection_loop_exit 0 Scenarios.running))))) = true.
Proof.
  assert (Hown : Controller.owned Scenarios.running) by (intros cap [<- | []]; reflexivity).
  assert (Hth : Controller.detection_thread Scenarios.running = Some 0%nat) by reflexivity.
  split; [exact Hown | split; [exact Hth |]].
  pose proof (start_after_worker_returned Scenarios.running 0 false Hown Hth) as H.
  cbv zeta in H.
  destruct (Controller.start_stream true false
              (snd (Controller.detection_loop_exit 0 Scenarios.running))) as [[t s2] result].
  exact (proj1 (proj2 H)).
Defined.
